(** * The STFT / iSTFT overlap-add engine of [fft_analysis.audio.stft]

    A shallow embedding of the class [STFTProcessor]: construction
    ([__init__], [_get_window]), the forward transform [stft], the
    overlap-add reconstruction [istft] and the fidelity metric
    [compute_snr].

    Numbers.  Python integers are [Z].  A float64 sample is an exact real
    number ([R]); rounding and overflow are outside the model.  The two
    operations of the source that can leave the finite range on finite
    operands, true division and [log10], return a [float], which adds the
    IEEE special values to the reals.  A complex128 value is a pair of
    reals.  Statements over the reals are about shapes, about which
    sample goes where and about the formula the code applies.  Where the
    question is whether a sample is finite, [istft] is given again on
    binary64 (module [f64]).

    Exceptions.  A call returns [Ok v] or [Raise e]; [e] records the Python
    exception class and, for a [ValueError], the place that raises it. *)

From Stdlib Require Import String Reals Lra Lia ZArith Bool Arith List.
From Stdlib Require PrimFloat.
Import ListNotations.

Set Warnings "-inexact-float".

(* ================================================================= *)
(** ** Python results *)

Inductive reason : Set :=
| unsupported_window_type   (* raised by [STFTProcessor._get_window] *)
| unknown_window_type       (* scipy: name not in its window table *)
| bad_window_length         (* scipy: negative window length *)
| negative_dimensions       (* numpy: [zeros] with a negative extent *)
| operands_not_broadcast    (* numpy: shapes of a binary operation disagree *)
| output_not_broadcast      (* numpy: in-place operation would change the shape *)
| input_not_broadcast       (* numpy: assignment of an array of another shape *)
| invalid_fft_points.       (* numpy: transform of an empty array *)

Inductive exn : Set :=
| ValueError (why : reason)
| ZeroDivisionError
| IndexError.

Inductive result (A : Type) : Type :=
| Ok (a : A)
| Raise (e : exn).

Arguments Ok {A} a.
Arguments Raise {A} e.

Definition bind {A B : Type} (c : result A) (k : A -> result B) : result B :=
  match c with
  | Ok a => k a
  | Raise e => Raise e
  end.

Notation "x <- c ;; k" := (bind c (fun x => k))
  (at level 61, c at next level, right associativity).
Notation "' p <- c ;; k" := (bind c (fun p => k))
  (at level 61, p pattern, c at next level, right associativity).

(** [for i in range(n): s = body(i, s)], leaving at the first exception. *)
Fixpoint for_range {St : Type} (n : nat) (body : nat -> St -> result St) (s : St)
  : result St :=
  match n with
  | O => Ok s
  | S k => s' <- for_range k body s ;; body k s'
  end.

(** Python's [len] and [range] on the integers of the source. *)
Definition len {A : Type} (a : list A) : Z := Z.of_nat (length a).

Definition floordiv (a b : Z) : result Z :=
  if (b =? 0)%Z then Raise ZeroDivisionError else Ok (a / b)%Z.

(* ================================================================= *)
(** ** Numbers *)

Open Scope R_scope.

Record complex : Type := mkC { Re : R; Im : R }.

Definition C0 : complex := mkC 0 0.
Definition RtoC (x : R) : complex := mkC x 0.
Definition Cadd (a b : complex) : complex := mkC (Re a + Re b) (Im a + Im b).
Definition Cmul (a b : complex) : complex :=
  mkC (Re a * Re b - Im a * Im b) (Re a * Im b + Im a * Re b).
Definition Cscale (c : R) (a : complex) : complex := mkC (c * Re a) (c * Im a).

(** [exp(i * theta)] *)
Definition cis (theta : R) : complex := mkC (cos theta) (sin theta).

Definition Rsum (l : list R) : R := fold_right Rplus 0 l.
Definition Csum (l : list complex) : complex := fold_right Cadd C0 l.

(** A float64 result: a real number or one of the IEEE special values. *)
Inductive float : Type :=
| Finite (r : R)
| PosInf
| NegInf
| NaN.

Definition is_finite (x : float) : bool :=
  match x with Finite _ => true | _ => false end.

(** float64 true division of two finite operands; a zero divisor gives an
    infinity of the sign of the dividend, or NaN for [0 / 0] (numpy warns,
    it does not raise). *)
Definition fdiv (a b : R) : float :=
  if Req_dec_T b 0 then
    if Rlt_dec 0 a then PosInf
    else if Rlt_dec a 0 then NegInf
    else NaN
  else Finite (a / b).

(** [np.log10] on a float64 quotient. *)
Definition log10 (x : float) : float :=
  match x with
  | Finite r =>
      if Rlt_dec 0 r then Finite (ln r / ln 10)
      else if Req_dec_T r 0 then NegInf
      else NaN
  | PosInf => PosInf
  | NegInf => NaN
  | NaN => NaN
  end.

(** [c * x] for a finite factor [c]. *)
Definition fscale (c : R) (x : float) : float :=
  match x with
  | Finite r => Finite (c * r)
  | PosInf =>
      if Rlt_dec 0 c then PosInf else if Rlt_dec c 0 then NegInf else NaN
  | NegInf =>
      if Rlt_dec 0 c then NegInf else if Rlt_dec c 0 then PosInf else NaN
  | NaN => NaN
  end.

(* ================================================================= *)
(** ** The numpy operations the class uses *)

Module np.

(** A two-dimensional complex128 array, kept as the list of its columns;
    [shape0] is the row count (a matrix without columns still has one). *)
Record matrix : Type := mkMatrix { shape0 : nat; columns : list (list complex) }.

Definition shape1 (m : matrix) : Z := len (columns m).

(** Every column has [shape0] entries: what numpy guarantees of any array. *)
Definition rectangular (m : matrix) : Prop :=
  Forall (fun c => length c = shape0 m) (columns m).

(** [np.zeros(n)] *)
Definition zeros (n : Z) : result (list R) :=
  if (n <? 0)%Z then Raise (ValueError negative_dimensions)
  else Ok (repeat 0 (Z.to_nat n)).

(** [np.zeros((r, c), dtype=np.complex128)] *)
Definition zeros2 (r c : Z) : result matrix :=
  if ((r <? 0) || (c <? 0))%Z then Raise (ValueError negative_dimensions)
  else Ok (mkMatrix (Z.to_nat r) (repeat (repeat C0 (Z.to_nat r)) (Z.to_nat c))).

(** A bound of a slice: negative bounds count from the end, and the
    result is clamped to the array. *)
Definition clip (n k : Z) : Z :=
  if (k <? 0)%Z then Z.max (k + n) 0 else Z.min k n.

(** [a[start:stop]] *)
Definition slice {A : Type} (a : list A) (start stop : Z) : list A :=
  let s := clip (len a) start in
  let e := clip (len a) stop in
  firstn (Z.to_nat (e - s)) (skipn (Z.to_nat s) a).

Fixpoint zip_with {A B C : Type} (f : A -> B -> C) (a : list A) (b : list B)
  : list C :=
  match a, b with
  | x :: a', y :: b' => f x y :: zip_with f a' b'
  | _, _ => []
  end.

(** [a op b] on one-dimensional arrays, with numpy's broadcasting: equal
    lengths go elementwise, a one-element operand is stretched. *)
Definition broadcast {A B C : Type} (f : A -> B -> C) (a : list A) (b : list B)
  : result (list C) :=
  if (length a =? length b)%nat then Ok (zip_with f a b)
  else match a, b with
       | [x], _ => Ok (map (f x) b)
       | _, [y] => Ok (map (fun x => f x y) a)
       | _, _ => Raise (ValueError operands_not_broadcast)
       end.

(** [a op= b]: as [broadcast], but the result must keep the shape of [a]. *)
Definition broadcast_into {A B C : Type} (f : A -> B -> C) (a : list A) (b : list B)
  : result (list C) :=
  if (length a =? length b)%nat then Ok (zip_with f a b)
  else match a, b with
       | _, [y] => Ok (map (fun x => f x y) a)
       | [_], _ => Raise (ValueError output_not_broadcast)
       | _, _ => Raise (ValueError operands_not_broadcast)
       end.

(** [a[start:stop] += b] *)
Definition iadd_slice (a : list R) (start stop : Z) (b : list R)
  : result (list R) :=
  let s := Z.to_nat (clip (len a) start) in
  let view := slice a start stop in
  view' <- broadcast_into Rplus view b ;;
  Ok (firstn s a ++ view' ++ skipn (s + length view) a).

(** [m[:, i]] *)
Definition column (m : matrix) (i : nat) : result (list complex) :=
  match nth_error (columns m) i with
  | Some c => Ok c
  | None => Raise IndexError
  end.

Fixpoint replace_nth {A : Type} (i : nat) (x : A) (l : list A) : list A :=
  match l, i with
  | [], _ => []
  | _ :: l', O => x :: l'
  | y :: l', S j => y :: replace_nth j x l'
  end.

(** [m[:, i] = c] *)
Definition set_column (m : matrix) (i : nat) (c : list complex) : result matrix :=
  if (length (columns m) <=? i)%nat then Raise IndexError
  else if (length c =? shape0 m)%nat then
    Ok (mkMatrix (shape0 m) (replace_nth i c (columns m)))
  else match c with
       | [z] => Ok (mkMatrix (shape0 m) (replace_nth i (repeat z (shape0 m)) (columns m)))
       | _ => Raise (ValueError input_not_broadcast)
       end.

(** The discrete Fourier sum with kernel [exp(sign * 2 pi i m k / n)]. *)
Definition dft (sign : R) (x : list complex) : list complex :=
  let n := length x in
  map (fun k =>
         Csum (map (fun m =>
                      Cmul (nth m x C0)
                           (cis (sign * (2 * PI * INR m * INR k / INR n))))
                   (seq 0 n)))
      (seq 0 n).

(** [np.fft.fft(a)]; an empty array is refused. *)
Definition fft (x : list complex) : result (list complex) :=
  match x with
  | [] => Raise (ValueError invalid_fft_points)
  | _ => Ok (dft (-1) x)
  end.

(** [np.fft.ifft(a)] *)
Definition ifft (x : list complex) : result (list complex) :=
  match x with
  | [] => Raise (ValueError invalid_fft_points)
  | _ => Ok (map (Cscale (/ INR (length x))) (dft 1 x))
  end.

(** A float array handed to a complex routine. *)
Definition as_complex (a : list R) : list complex := map RtoC a.

(** [np.real(a)] *)
Definition real (a : list complex) : list R := map Re a.

(** [np.sum(a)] *)
Definition sum (a : list R) : R := Rsum a.

(** [a ** 2] *)
Definition square (a : list R) : list R := map (fun x => x * x) a.

(** [a[a < bound] = v] *)
Definition where_lt_set (a : list R) (bound v : R) : list R :=
  map (fun x => if Rlt_dec x bound then v else x) a.

End np.

(* ================================================================= *)
(** ** The window generators of scipy.signal (periodic, [fftbins=True])

    [scipy.signal.get_window] is a library function outside the
    repository; the four windows the class admits are given by their
    library definitions: a cosine sum over [linspace(-pi, pi, M + 1)]
    without its last point, or the triangle for [bartlett].

    The guard on the length is that of scipy 1.10, the oldest release
    the package admits: a negative length is refused, and a length of 0
    or 1 gives that many ones.  Later releases refuse the length 0 as
    well; what construction does with [window_size = 0] is therefore a
    matter of the installed library.

    The coefficients are the exact values of these formulas; those of
    float64 differ from them by rounding. *)

Module scipy.

Definition general_cosine (M : Z) (a : list R) : result (list R) :=
  if (M <? 0)%Z then Raise (ValueError bad_window_length)
  else if (M <=? 1)%Z then Ok (repeat 1 (Z.to_nat M))
  else
    Ok (map (fun n =>
               let fac := - PI + 2 * PI * INR n / IZR M in
               Rsum (map (fun ka => snd ka * cos (INR (fst ka) * fac))
                         (combine (seq 0 (length a)) a)))
            (seq 0 (Z.to_nat M))).

Definition hann (M : Z) := general_cosine M [0.5; 0.5].
Definition hamming (M : Z) := general_cosine M [0.54; 0.46].
Definition blackman (M : Z) := general_cosine M [0.42; 0.50; 0.08].

Definition bartlett (M : Z) : result (list R) :=
  if (M <? 0)%Z then Raise (ValueError bad_window_length)
  else if (M <=? 1)%Z then Ok (repeat 1 (Z.to_nat M))
  else
    Ok (map (fun n =>
               if Rle_dec (INR n) (IZR M / 2)
               then 2 * INR n / IZR M
               else 2 - 2 * INR n / IZR M)
            (seq 0 (Z.to_nat M))).

(** Names other than the four below never reach this function from the
    class, whose own test comes first. *)
Definition get_window (window : string) (Nx : Z) : result (list R) :=
  if (window =? "hann")%string then hann Nx
  else if (window =? "hamming")%string then hamming Nx
  else if (window =? "blackman")%string then blackman Nx
  else if (window =? "bartlett")%string then bartlett Nx
  else Raise (ValueError unknown_window_type).

End scipy.

(* ================================================================= *)
(** ** class STFTProcessor *)

Module STFTProcessor.

(** The attributes of an instance.  [experiment_id] and [date] only name
    the file written by [save_results] and are left out. *)
Record self : Type := mkSelf {
  window_size : Z;
  hop_length : Z;
  window_type : string;
  window : list R
}.

Definition supported_windows : list string :=
  ["hann"; "hamming"; "blackman"; "bartlett"]%string.

Definition _get_window (window_type : string) (window_size : Z)
  : result (list R) :=
  if negb (existsb (String.eqb window_type) supported_windows)
  then Raise (ValueError unsupported_window_type)
  else scipy.get_window window_type window_size.

Definition __init__ (window_size hop_length : Z) (window_type : string)
  : result self :=
  w <- _get_window window_type window_size ;;
  Ok (mkSelf window_size hop_length window_type w).

(** The body of the loop of [stft]. *)
Definition stft_frame (p : self) (audio_signal : list R)
           (i : nat) (stft_matrix : np.matrix) : result np.matrix :=
  let start := (Z.of_nat i * hop_length p)%Z in
  let end_ := (start + window_size p)%Z in
  let frame := np.slice audio_signal start end_ in
  windowed_frame <- np.broadcast Rmult frame (window p) ;;
  spectrum <- np.fft (np.as_complex windowed_frame) ;;
  np.set_column stft_matrix i spectrum.

Definition stft (p : self) (audio_signal : list R) : result np.matrix :=
  q <- floordiv (len audio_signal - window_size p) (hop_length p) ;;
  let num_frames := (1 + q)%Z in
  stft_matrix <- np.zeros2 (window_size p) num_frames ;;
  for_range (Z.to_nat num_frames) (stft_frame p audio_signal) stft_matrix.

(** The body of the loop of [istft]; the state is the pair
    [(output_signal, window_sum)]. *)
Definition istft_frame (p : self) (stft_matrix : np.matrix)
           (i : nat) (acc : list R * list R) : result (list R * list R) :=
  let (output_signal, window_sum) := acc in
  col <- np.column stft_matrix i ;;
  spectrum <- np.ifft col ;;
  frame <- np.broadcast Rmult (np.real spectrum) (window p) ;;
  let start := (Z.of_nat i * hop_length p)%Z in
  let end_ := (start + window_size p)%Z in
  output_signal' <- np.iadd_slice output_signal start end_ frame ;;
  window_sum' <- np.iadd_slice window_sum start end_ (window p) ;;
  Ok (output_signal', window_sum').

(** [istft] up to the end of its loop. *)
Definition overlap_add (p : self) (stft_matrix : np.matrix)
  : result (list R * list R) :=
  let num_frames := np.shape1 stft_matrix in
  let expected_signal_length :=
    ((num_frames - 1) * hop_length p + window_size p)%Z in
  output_signal <- np.zeros expected_signal_length ;;
  window_sum <- np.zeros expected_signal_length ;;
  for_range (Z.to_nat num_frames) (istft_frame p stft_matrix)
            (output_signal, window_sum).

Definition istft (p : self) (stft_matrix : np.matrix) : result (list float) :=
  ' (output_signal, window_sum) <- overlap_add p stft_matrix ;;
  let window_sum := np.where_lt_set window_sum 1e-6 1 in
  np.broadcast_into fdiv output_signal window_sum.

Definition compute_snr (original_signal reconstructed_signal : list R)
  : result float :=
  let min_length := Z.min (len original_signal) (len reconstructed_signal) in
  let original_signal := np.slice original_signal 0 min_length in
  let reconstructed_signal := np.slice reconstructed_signal 0 min_length in
  noise <- np.broadcast Rminus original_signal reconstructed_signal ;;
  Ok (fscale 10 (log10 (fdiv (np.sum (np.square original_signal))
                             (np.sum (np.square noise))))).

End STFTProcessor.

Import STFTProcessor.

(* ================================================================= *)
(** ** The specification's vocabulary

    Closed forms, written from the words of the specification, against
    which the loops above are compared. *)

(** Frame count of a signal of [L] samples. *)
Definition frame_count (L W H : Z) : Z := (1 + (L - W) / H)%Z.

(** The window-multiplied frame starting at sample [i * H]. *)
Definition windowed_frame (w x : list R) (H : Z) (i : nat) : list R :=
  map (fun j => nth (Z.to_nat (Z.of_nat i * H) + j) x 0 * nth j w 0)
      (seq 0 (length w)).

(** The real part of the inverse transform of a column, re-windowed. *)
Definition inverse_frame (w : list R) (col : list complex) : list R :=
  map (fun j => Re (Cscale (/ INR (length col)) (nth j (np.dft 1 col) C0)) * nth j w 0)
      (seq 0 (length w)).

(** Frame [i], placed at offset [i * H], covers output sample [n]. *)
Definition covers (W H : Z) (i n : nat) : bool :=
  ((Z.of_nat i * H <=? Z.of_nat n) && (Z.of_nat n <? Z.of_nat i * H + W))%Z.

(** Sample [n] of the sum of the sequences [f 0], [f 1], ..., each placed
    at its offset. *)
Definition overlap_sum (W H : Z) (count : nat) (f : nat -> nat -> R) (n : nat) : R :=
  Rsum (map (fun i => if covers W H i n
                      then f i (Z.to_nat (Z.of_nat n - Z.of_nat i * H))
                      else 0)
            (seq 0 count)).

(** The divisor of the normalisation: the accumulated window, or 1 below
    the floor. *)
Definition divisor (e : R) : R := if Rlt_dec e 1e-6 then 1 else e.

(** The real value of a finite sample. *)
Definition value (f : float) : R :=
  match f with
  | Finite r => r
  | _ => 0
  end.

(** Mean squared error of a reconstruction over the [count] samples from
    [lo] on; the round-trip tolerance [RMSE < 1e-9] reads
    [mean_squared_error x y lo count < 1e-9 * 1e-9]. *)
Definition mean_squared_error (x : list R) (y : list float) (lo count : nat) : R :=
  Rsum (map (fun n => (nth n x 0 - value (nth n y NaN))
                      * (nth n x 0 - value (nth n y NaN)))
            (seq lo count))
  / INR count.

(** Energy of the first [k] samples of the original signal, and of its
    difference with the reconstruction. *)
Definition signal_energy (o : list R) (k : nat) : R :=
  Rsum (map (fun i => nth i o 0 * nth i o 0) (seq 0 k)).

Definition noise_energy (o r : list R) (k : nat) : R :=
  Rsum (map (fun i => (nth i o 0 - nth i r 0) * (nth i o 0 - nth i r 0)) (seq 0 k)).

(* ================================================================= *)
(** ** Sample processors and signals *)

Definition constructed (c : result self) : self :=
  match c with
  | Ok p => p
  | Raise _ => mkSelf 0 0 "" []
  end.

(** [STFTProcessor(window_size=4, hop_length=2, window_type='hann')] *)
Definition hann_4_2 : self := constructed (__init__ 4 2 "hann").

(** [STFTProcessor(window_size=200, hop_length=50, window_type='hann')] *)
Definition hann_200_50 : self := constructed (__init__ 200 50 "hann").

(** The defaults of the class:
    [STFTProcessor(window_size=2048, hop_length=512, window_type='hann')] *)
Definition hann_2048_512 : self := constructed (__init__ 2048 512 "hann").

(** Eight samples, and a thousand, of the constant 1. *)
Definition ones_8 : list R := repeat 1 8.
Definition ones_1000 : list R := repeat 1 1000.

(** A ramp of eight samples. *)
Definition ramp_8 : list R := [1; 2; 3; 4; 5; 6; 7; 8].

(** Two silent columns of four bins. *)
Definition zero_spectrum_4 : np.matrix :=
  np.mkMatrix 4 [[C0; C0; C0; C0]; [C0; C0; C0; C0]].

(* ================================================================= *)
(** ** Further numpy operations, used by the other classes *)

(** [abs(z)] of a complex128 value. *)
Definition Cabs (z : complex) : R := sqrt (Re z * Re z + Im z * Im z).

(** Python's [a / b] on two integers, as an exact quotient (for a divisor
    beyond the float64 range Python returns 0.0; such divisors are
    outside the model). *)
Definition truediv (a b : Z) : result R :=
  if (b =? 0)%Z then Raise ZeroDivisionError else Ok (IZR a / IZR b).

Module npx.

(** [np.linspace(start, stop, num, endpoint=False)]: [num] points from
    [start] in steps of [(stop - start) / num]; a negative [num] is
    refused with a [ValueError], recorded here under the reason of a
    negative extent.  The count is a Python integer; counts beyond what
    numpy can allocate are outside the model. *)
Definition linspace_open (start stop : R) (num : Z) : result (list R) :=
  if (num <? 0)%Z then Raise (ValueError negative_dimensions)
  else
    let step := (stop - start) / IZR num in
    Ok (map (fun i => INR i * step + start) (seq 0 (Z.to_nat num))).

(** The integer bin numbers of [np.fft.fftfreq]:
    [0, 1, ..., (n-1)//2, -(n//2), ..., -1]. *)
Definition fftfreq_bins (n : nat) : list Z :=
  let N := Z.to_nat ((Z.of_nat n - 1) / 2 + 1) in
  map Z.of_nat (seq 0 N)
  ++ map (fun i => (Z.of_nat i - Z.of_nat n / 2)%Z) (seq 0 (Z.to_nat (Z.of_nat n / 2))).

(** [np.fft.fftfreq(n, d)] for a Python float [d]: the bin numbers times
    [1.0 / (n * d)], a division of Python floats. *)
Definition fftfreq (n : nat) (d : R) : result (list R) :=
  if Req_dec_T (INR n * d) 0 then Raise ZeroDivisionError
  else
    let val := 1 / (INR n * d) in
    Ok (map (fun k => IZR k * val) (fftfreq_bins n)).

(** [np.abs(a)] on a complex array. *)
Definition abs (a : list complex) : list R := map Cabs a.

(** [a >= bound], the boolean mask. *)
Definition ge_mask (a : list R) (bound : R) : list bool :=
  map (fun x => if Rle_dec bound x then true else false) a.

(** [a[mask]] for a boolean mask of the length of [a]. *)
Fixpoint compress {A : Type} (mask : list bool) (a : list A) : list A :=
  match mask, a with
  | b :: mask', x :: a' => if b then x :: compress mask' a' else compress mask' a'
  | _, _ => []
  end.

(** [np.clip(a, lo, hi)], that is [minimum(maximum(a, lo), hi)], on
    samples that may be infinite or NaN: a NaN stays a NaN. *)
Definition clip (a : list float) (lo hi : R) : list float :=
  map (fun x =>
         match x with
         | Finite r => Finite (Rmin (Rmax r lo) hi)
         | PosInf => Finite hi
         | NegInf => Finite (Rmin lo hi)
         | NaN => NaN
         end) a.

End npx.

(* ================================================================= *)
(** ** class FFTAnalyzer ([fft_analysis/fft.py]; the functions of the same
       names in [fft_example.py] have the same bodies)

    The methods use no attribute of the instance. *)

Module FFTAnalyzer.

(** [generate_signal(freq, duration, sampling_rate)], on the integers its
    docstring asks for. *)
Definition generate_signal (freq duration sampling_rate : Z)
  : result (list R * list R * list Z) :=
  t <- npx.linspace_open 0 (IZR duration) (sampling_rate * duration) ;;
  let signal :=
    map (fun ti =>
           sin (2 * PI * IZR freq * ti)
           + 0.5 * sin (2 * PI * 2 * IZR freq * ti)
           + 0.25 * sin (2 * PI * 3 * IZR freq * ti)) t in
  Ok (t, signal, [freq; 2 * freq; 3 * freq]%Z).

Definition perform_fft (signal : list R) (sampling_rate : Z)
  : result (list R * list R) :=
  let n := length signal in
  fft_result <- np.fft (np.as_complex signal) ;;
  d <- truediv 1 sampling_rate ;;
  freq <- npx.fftfreq n d ;;
  let magnitude := map (fun a => a / INR n * 2) (npx.abs fft_result) in
  let positive_freq_mask := npx.ge_mask freq 0 in
  Ok (npx.compress positive_freq_mask freq,
      npx.compress positive_freq_mask magnitude).

Definition perform_ifft (fft_result : list complex) : result (list R) :=
  spectrum <- np.ifft fft_result ;;
  Ok (np.real spectrum).

End FFTAnalyzer.

(* ================================================================= *)
(** ** class AudioLoader ([fft_analysis/audio/io.py])

    File paths are strings of ASCII characters.  The soundfile library is
    outside the repository: [save_audio] is given by the call of
    [sf.write] it makes, [load_audio] takes what [sf.read] returns. *)

Module AudioLoader.

Definition supported_formats : list string := [".wav"; ".flac"; ".ogg"]%string.

(** [c.lower()] on an ASCII character. *)
Definition lower_ascii (c : Ascii.ascii) : Ascii.ascii :=
  let n := Ascii.nat_of_ascii c in
  if ((65 <=? n) && (n <=? 90))%nat then Ascii.ascii_of_nat (n + 32) else c.

(** [s.lower()] *)
Fixpoint lower (s : string) : string :=
  match s with
  | EmptyString => EmptyString
  | String c s' => String (lower_ascii c) (lower s')
  end.

(** [s.endswith(suffix)] *)
Definition endswith (s suffix : string) : bool :=
  let ls := String.length s in
  let lf := String.length suffix in
  (lf <=? ls)%nat && String.eqb (String.substring (ls - lf) lf s) suffix.

(** [any(file_path.lower().endswith(fmt) for fmt in self.supported_formats)] *)
Definition format_supported (file_path : string) : bool :=
  existsb (fun fmt => endswith (lower file_path) fmt) supported_formats.

(** What a call returns or raises. *)
Inductive outcome (A : Type) : Type :=
| Returned (a : A)
| UnsupportedFormat   (* the [ValueError] of the format test *)
| SoundfileError.     (* an exception of [sf.read], passed on *)

Arguments Returned {A} a.
Arguments UnsupportedFormat {A}.
Arguments SoundfileError {A}.




(** The arguments of the call [sf.write(file_path, audio_data, sample_rate)]. *)
Record write_call : Type := mkWrite {
  written_path : string;
  written_data : list float;
  written_rate : Z
}.

Definition save_audio (file_path : string) (audio_data : list float) (sample_rate : Z)
  : outcome write_call :=
  if negb (format_supported file_path) then UnsupportedFormat
  else
    let audio_data := npx.clip audio_data (-1) 1 in
    Returned (mkWrite file_path audio_data sample_rate).

End AudioLoader.

(* ================================================================= *)
(** ** [istft] on binary64

    Whether a returned sample is finite is decided by the overflow of
    float64, which the real numbers above leave out.  For that question
    the reconstruction is given a second time, line for line as in
    [STFTProcessor.istft], on the binary64 numbers of the kernel, whose
    operations are those of IEEE 754: a sum of finite numbers can be
    infinite, and [inf * 0] is NaN.  The window is part of the instance;
    [np.fft.ifft], a library function, is a parameter of the method. *)

Module f64.

Import PrimFloat.

(** A complex128 value: real and imaginary part. *)
Definition complex128 : Type := float * float.

(** A two-dimensional complex128 array, kept as the list of its columns. *)
Record matrix : Type := mkMatrix { shape0 : nat; columns : list (list complex128) }.

Definition shape1 (m : matrix) : Z := len (columns m).

Definition rectangular (m : matrix) : Prop :=
  Forall (fun c => length c = shape0 m) (columns m).

(** No entry of the matrix is an infinity or NaN. *)
Definition finite_entries (m : matrix) : bool :=
  forallb (forallb (fun z => is_finite (fst z) && is_finite (snd z))) (columns m).

(** [np.zeros(n)] *)
Definition zeros (n : Z) : result (list float) :=
  if (n <? 0)%Z then Raise (ValueError negative_dimensions)
  else Ok (repeat 0%float (Z.to_nat n)).

(** [a[start:stop] += b] *)
Definition iadd_slice (a : list float) (start stop : Z) (b : list float)
  : result (list float) :=
  let s := Z.to_nat (np.clip (len a) start) in
  let view := np.slice a start stop in
  view' <- np.broadcast_into add view b ;;
  Ok (firstn s a ++ view' ++ skipn (s + length view) a).

(** [m[:, i]] *)
Definition column (m : matrix) (i : nat) : result (list complex128) :=
  match nth_error (columns m) i with
  | Some c => Ok c
  | None => Raise IndexError
  end.

(** [np.real(a)] *)
Definition real (a : list complex128) : list float := map fst a.

(** [a[a < bound] = v]; a NaN is below nothing. *)
Definition where_lt_set (a : list float) (bound v : float) : list float :=
  map (fun x => if (x <? bound)%float then v else x) a.

(** The attributes of an instance that [istft] reads. *)
Record self : Type := mkSelf {
  window_size : Z;
  hop_length : Z;
  window : list float
}.

Section Reconstruction.

Variable ifft : list complex128 -> result (list complex128).

(** The body of the loop of [istft]. *)
Definition istft_frame (p : self) (stft_matrix : matrix)
           (i : nat) (acc : list float * list float)
  : result (list float * list float) :=
  let (output_signal, window_sum) := acc in
  col <- column stft_matrix i ;;
  spectrum <- ifft col ;;
  frame <- np.broadcast mul (real spectrum) (window p) ;;
  let start := (Z.of_nat i * hop_length p)%Z in
  let end_ := (start + window_size p)%Z in
  output_signal' <- iadd_slice output_signal start end_ frame ;;
  window_sum' <- iadd_slice window_sum start end_ (window p) ;;
  Ok (output_signal', window_sum').

(** [istft] up to the end of its loop. *)
Definition overlap_add (p : self) (stft_matrix : matrix)
  : result (list float * list float) :=
  let num_frames := shape1 stft_matrix in
  let expected_signal_length :=
    ((num_frames - 1) * hop_length p + window_size p)%Z in
  output_signal <- zeros expected_signal_length ;;
  window_sum <- zeros expected_signal_length ;;
  for_range (Z.to_nat num_frames) (istft_frame p stft_matrix)
            (output_signal, window_sum).

Definition istft (p : self) (stft_matrix : matrix) : result (list float) :=
  ' (output_signal, window_sum) <- overlap_add p stft_matrix ;;
  let window_sum := where_lt_set window_sum 1e-6 1 in
  np.broadcast_into div output_signal window_sum.

End Reconstruction.

(** *** The inverse transform of four points

    numpy computes a transform of four points with one radix-4 butterfly
    of pocketfft ([pass4b]: sums and differences, no twiddle factor) and
    scales the result by [1 / 4] afterwards. *)

Definition cadd (a b : complex128) : complex128 :=
  (fst a + fst b, snd a + snd b)%float.

Definition csub (a b : complex128) : complex128 :=
  (fst a - fst b, snd a - snd b)%float.

(** Multiplication by [i]. *)
Definition rot90 (a : complex128) : complex128 := (- snd a, fst a)%float.

Definition cscale (fct : float) (a : complex128) : complex128 :=
  (fst a * fct, snd a * fct)%float.

Definition pass4b (c0 c1 c2 c3 : complex128) : list complex128 :=
  let t2 := cadd c0 c2 in
  let t1 := csub c0 c2 in
  let t3 := cadd c1 c3 in
  let t4 := rot90 (csub c1 c3) in
  [cadd t2 t3; cadd t1 t4; csub t2 t3; csub t1 t4].

(** [np.fft.ifft] on an array of four points.  Arrays of another size
    need the float cosines of the library and are not transformed
    anywhere below; for them the definition only repeats the refusal of
    the empty array. *)
Definition ifft_4_points (x : list complex128) : result (list complex128) :=
  match x with
  | [c0; c1; c2; c3] => Ok (map (cscale 0.25) (pass4b c0 c1 c2 c3))
  | _ => Raise (ValueError invalid_fft_points)
  end.

(** What [STFTProcessor(window_size=4, hop_length=2, window_type='hann')]
    holds: the Hann window of four samples is 0, 0.5, 1, 0.5 in float64
    as over the reals. *)
Definition hann_4_2 : self := mkSelf 4 2 [0; 0.5; 1; 0.5]%float.

(** One column of four bins, [4, 0, 0, 0]: the transform of the frame
    [1, 1, 1, 1]. *)
Definition unit_spectrum_4 : matrix :=
  mkMatrix 4 [[(4, 0); (0, 0); (0, 0); (0, 0)]]%float.

(** One column of finite entries whose first two bins are [2 ** 1023]. *)
Definition large_spectrum_4 : matrix :=
  mkMatrix 4 [[(0x1p+1023, 0); (0x1p+1023, 0); (0, 0); (0, 0)]]%float.

End f64.

(* ================================================================= *)
(** * Properties *)

(** Evaluation of the array code on a concrete input, the real numbers
    left as they are; and the comparisons of real constants. *)
Ltac eval_arrays :=
  cbv -[Rlt_dec Req_dec_T cos sin PI Rplus Rmult Rminus Ropp Rdiv Rinv IZR INR fdiv Rle_dec].

Ltac decide_Rlt :=
  repeat match goal with
         | |- context [Rlt_dec ?a ?b] => destruct (Rlt_dec a b); try lra
         end.

(* ----------------------------------------------------------------- *)
(** ** Sums, and the discrete Fourier sum of a real frame *)

Lemma nth_map_seq {A} (f : nat -> A) n k d :
  (k < n)%nat -> nth k (map f (seq 0 n)) d = f k.
Proof.
  intros Hk. rewrite (nth_indep _ d (f 0%nat)) by (rewrite length_map, length_seq; exact Hk).
  rewrite map_nth, seq_nth by exact Hk. reflexivity.
Qed.

Lemma Rsum_app a b : Rsum (a ++ b) = Rsum a + Rsum b.
Proof. unfold Rsum. induction a; simpl; lra. Qed.

Lemma Rsum_map_ext {A} (f g : A -> R) l :
  (forall a, In a l -> f a = g a) -> Rsum (map f l) = Rsum (map g l).
Proof. intros E. f_equal. apply map_ext_in. exact E. Qed.

Lemma Rsum_map_plus {A} (f g : A -> R) l :
  Rsum (map (fun a => f a + g a) l) = Rsum (map f l) + Rsum (map g l).
Proof. unfold Rsum. induction l; simpl; lra. Qed.

Lemma Rsum_map_scal {A} c (f : A -> R) l :
  Rsum (map (fun a => c * f a) l) = c * Rsum (map f l).
Proof. unfold Rsum. induction l; simpl; lra. Qed.

Lemma Rsum_map_zero {A} (l : list A) : Rsum (map (fun _ => 0) l) = 0.
Proof. unfold Rsum. induction l; simpl; lra. Qed.

Lemma Rsum_map_const {A} c (l : list A) : Rsum (map (fun _ => c) l) = INR (length l) * c.
Proof.
  unfold Rsum. induction l as [|a l IH]; [simpl; lra|].
  change (length (a :: l)) with (S (length l)). rewrite S_INR. simpl. lra.
Qed.

Lemma Rsum_swap {A B} (f : A -> B -> R) la lb :
  Rsum (map (fun a => Rsum (map (fun b => f a b) lb)) la)
  = Rsum (map (fun b => Rsum (map (fun a => f a b) la)) lb).
Proof.
  induction la as [|a la IH]; simpl.
  - rewrite Rsum_map_zero. reflexivity.
  - rewrite IH, <- Rsum_map_plus. reflexivity.
Qed.

(** Only the term of index [j] survives. *)
Lemma Rsum_none (g : nat -> R) j s n :
  (j < s)%nat ->
  Rsum (map (fun m => if (m =? j)%nat then g m else 0) (seq s n)) = 0.
Proof.
  revert s; induction n as [|n IH]; intros s Hj; [reflexivity|].
  cbn [seq map Rsum fold_right]. fold (Rsum (map (fun m => if (m =? j)%nat then g m else 0) (seq (S s) n))).
  rewrite IH by lia. destruct (Nat.eqb_spec s j); [lia|lra].
Qed.

Lemma Rsum_single (g : nat -> R) j s n :
  (s <= j < s + n)%nat ->
  Rsum (map (fun m => if (m =? j)%nat then g m else 0) (seq s n)) = g j.
Proof.
  revert s; induction n as [|n IH]; intros s Hj; [lia|].
  cbn [seq map Rsum fold_right]. fold (Rsum (map (fun m => if (m =? j)%nat then g m else 0) (seq (S s) n))).
  destruct (Nat.eqb_spec s j) as [->|Hne].
  - rewrite Rsum_none by lia. lra.
  - rewrite IH by lia. lra.
Qed.

Lemma Re_Csum l : Re (Csum l) = Rsum (map Re l).
Proof. induction l; simpl; [reflexivity|]. rewrite IHl. reflexivity. Qed.

Lemma Im_Csum l : Im (Csum l) = Rsum (map Im l).
Proof. induction l; simpl; [reflexivity|]. rewrite IHl. reflexivity. Qed.

(** Lagrange's telescoping identity for a sum of cosines in arithmetic
    progression. *)
Lemma cos_sum_telescope theta k :
  2 * sin (theta / 2) * Rsum (map (fun i => cos (INR i * theta)) (seq 0 k))
  = sin ((INR k - 1 / 2) * theta) + sin (theta / 2).
Proof.
  induction k as [|k IH].
  - simpl. replace ((0 - 1 / 2) * theta) with (- (theta / 2)) by lra.
    rewrite sin_neg. lra.
  - rewrite seq_S, map_app, Rsum_app. simpl map. rewrite Rmult_plus_distr_l, IH.
    unfold Rsum at 1. simpl fold_right. rewrite S_INR.
    replace ((INR k + 1 - 1 / 2) * theta) with (INR k * theta + theta / 2) by lra.
    replace ((INR k - 1 / 2) * theta) with (INR k * theta - theta / 2) by lra.
    rewrite sin_plus, sin_minus. lra.
Qed.

Lemma cos_sum_zero n d :
  (0 < d < n)%nat ->
  Rsum (map (fun k => cos (INR k * (2 * PI * INR d / INR n))) (seq 0 n)) = 0.
Proof.
  intros [Hd Hn].
  assert (Hn0 : 0 < INR n) by (apply lt_0_INR; lia).
  assert (Hd0 : 0 < INR d) by (apply lt_0_INR; lia).
  assert (Hdn : INR d < INR n) by (apply lt_INR; lia).
  set (theta := 2 * PI * INR d / INR n).
  pose proof (cos_sum_telescope theta n) as T.
  assert (Hhalf : 0 < theta / 2 < PI).
  { unfold theta. pose proof PI_RGT_0.
    replace (2 * PI * INR d / INR n / 2) with (PI * (INR d / INR n)) by (field; lra).
    assert (0 < INR d / INR n < 1).
    { split; [apply Rdiv_lt_0_compat; lra|].
      apply (Rmult_lt_reg_r (INR n)); [lra|]. unfold Rdiv.
      rewrite Rmult_assoc, Rinv_l by lra. lra. }
    nra. }
  assert (Hsin : 0 < sin (theta / 2)) by (apply sin_gt_0; lra).
  replace ((INR n - 1 / 2) * theta) with (- (theta / 2) + 2 * INR d * PI) in T
    by (unfold theta; field; lra).
  rewrite sin_period, sin_neg in T.
  assert (E : 2 * sin (theta / 2) * Rsum (map (fun i => cos (INR i * theta)) (seq 0 n)) = 0)
    by lra.
  apply Rmult_integral in E as [E|E]; [lra|exact E].
Qed.

(** Orthogonality of the sampled cosines. *)
Lemma cos_sum_orthogonal n m j :
  (m < n)%nat -> (j < n)%nat ->
  Rsum (map (fun k => cos (- 1 * (2 * PI * INR m * INR k / INR n)
                           + 1 * (2 * PI * INR k * INR j / INR n))) (seq 0 n))
  = if (m =? j)%nat then INR n else 0.
Proof.
  intros Hm Hj.
  assert (Hn0 : 0 < INR n) by (apply lt_0_INR; lia).
  destruct (Nat.eqb_spec m j) as [->|Hne].
  - rewrite (Rsum_map_ext _ (fun _ => 1)).
    + rewrite Rsum_map_const, length_seq. lra.
    + intros k _. transitivity (cos 0); [f_equal; field; lra|apply cos_0].
  - destruct (Nat.lt_ge_cases m j) as [Hlt|Hge].
    + rewrite <- (cos_sum_zero n (j - m)) by lia.
      apply Rsum_map_ext. intros k _. f_equal.
      rewrite minus_INR by lia. field. lra.
    + rewrite <- (cos_sum_zero n (m - j)) by lia.
      apply Rsum_map_ext. intros k _. rewrite <- cos_neg. f_equal.
      rewrite minus_INR by lia. field. lra.
Qed.

Lemma dft_length s x : length (np.dft s x) = length x.
Proof. unfold np.dft. rewrite length_map, length_seq. reflexivity. Qed.

Lemma as_complex_nth v m : nth m (np.as_complex v) C0 = RtoC (nth m v 0).
Proof. unfold np.as_complex. apply (map_nth RtoC v 0 m). Qed.

(** The two parts of one bin of the forward transform of a real frame. *)
Lemma dft_real_bin_Re (v : list R) k :
  (k < length v)%nat ->
  Re (nth k (np.dft (-1) (np.as_complex v)) C0)
  = Rsum (map (fun m => nth m v 0 * cos (- 1 * (2 * PI * INR m * INR k / INR (length v))))
              (seq 0 (length v))).
Proof.
  intros Hk. unfold np.dft.
  assert (Hl : length (np.as_complex v) = length v) by apply length_map.
  rewrite Hl, nth_map_seq by exact Hk.
  rewrite Re_Csum, map_map. apply Rsum_map_ext. intros m _.
  rewrite as_complex_nth. simpl. ring.
Qed.

Lemma dft_real_bin_Im (v : list R) k :
  (k < length v)%nat ->
  Im (nth k (np.dft (-1) (np.as_complex v)) C0)
  = Rsum (map (fun m => nth m v 0 * sin (- 1 * (2 * PI * INR m * INR k / INR (length v))))
              (seq 0 (length v))).
Proof.
  intros Hk. unfold np.dft.
  assert (Hl : length (np.as_complex v) = length v) by apply length_map.
  rewrite Hl, nth_map_seq by exact Hk.
  rewrite Im_Csum, map_map. apply Rsum_map_ext. intros m _.
  rewrite as_complex_nth. simpl. ring.
Qed.

(** The real part of the inverse transform of the transform of a real
    frame is the frame. *)
Theorem real_ifft_fft (v : list R) j :
  (j < length v)%nat ->
  Re (Cscale (/ INR (length (np.dft (-1) (np.as_complex v))))
             (nth j (np.dft 1 (np.dft (-1) (np.as_complex v))) C0))
  = nth j v 0.
Proof.
  intros Hj.
  assert (Hn0 : 0 < INR (length v)) by (apply lt_0_INR; lia).
  assert (Hl : length (np.dft (-1) (np.as_complex v)) = length v).
  { rewrite dft_length. apply length_map. }
  unfold np.dft at 2. rewrite !Hl, nth_map_seq by exact Hj.
  cbn [Re Cscale]. rewrite Re_Csum, map_map.
  rewrite (Rsum_map_ext _
    (fun k => Rsum (map (fun m => nth m v 0 *
                cos (- 1 * (2 * PI * INR m * INR k / INR (length v))
                     + 1 * (2 * PI * INR k * INR j / INR (length v))))
              (seq 0 (length v))))).
  2:{ intros k Hk. apply in_seq in Hk. cbn [Re Im Cmul cis].
      rewrite dft_real_bin_Re, dft_real_bin_Im by lia.
      rewrite (Rsum_map_ext
        (fun m => nth m v 0 *
           cos (- 1 * (2 * PI * INR m * INR k / INR (length v))
                + 1 * (2 * PI * INR k * INR j / INR (length v))))
        (fun m => cos (1 * (2 * PI * INR k * INR j / INR (length v))) *
                    (nth m v 0 * cos (- 1 * (2 * PI * INR m * INR k / INR (length v))))
                  + - sin (1 * (2 * PI * INR k * INR j / INR (length v))) *
                    (nth m v 0 * sin (- 1 * (2 * PI * INR m * INR k / INR (length v))))))
        by (intros m _; rewrite cos_plus; ring).
      rewrite Rsum_map_plus, !Rsum_map_scal. ring. }
  rewrite Rsum_swap.
  rewrite (Rsum_map_ext _ (fun m => if (m =? j)%nat then nth m v 0 * INR (length v) else 0)).
  2:{ intros m Hm. apply in_seq in Hm. rewrite Rsum_map_scal.
      rewrite cos_sum_orthogonal by lia. destruct (m =? j)%nat; ring. }
  rewrite Rsum_single by lia. field. lra.
Qed.

(* ----------------------------------------------------------------- *)
(** ** Results, loops and the array operations *)

Lemma for_range_invariant {St} (P : nat -> St -> Prop) n body (s0 : St) :
  P 0%nat s0 ->
  (forall k s, (k < n)%nat -> P k s -> exists s', body k s = Ok s' /\ P (S k) s') ->
  exists s', for_range n body s0 = Ok s' /\ P n s'.
Proof.
  intros H0 Hstep. induction n as [|n IH].
  - exists s0; auto.
  - destruct IH as (s & Hs & Ps).
    + intros k s Hk; apply Hstep; lia.
    + destruct (Hstep n s) as (s' & Hb & Ps'); auto.
      exists s'; simpl; rewrite Hs; auto.
Qed.

Lemma for_range_raise_first {St} n body (s0 : St) e :
  (0 < n)%nat -> body 0%nat s0 = Raise e -> for_range n body s0 = Raise e.
Proof.
  intros Hn Hb. induction n as [|n IH]; [lia|].
  simpl. destruct n as [|n].
  - simpl. exact Hb.
  - rewrite IH by lia. reflexivity.
Qed.

Lemma zip_with_length {A B C} (f : A -> B -> C) a b :
  length (np.zip_with f a b) = Nat.min (length a) (length b).
Proof.
  revert b; induction a as [|x a IH]; intros [|y b]; simpl; auto.
Qed.

Lemma zip_with_nth {A B C} (f : A -> B -> C) a b da db dc n :
  (n < length a)%nat -> (n < length b)%nat ->
  nth n (np.zip_with f a b) dc = f (nth n a da) (nth n b db).
Proof.
  revert b n; induction a as [|x a IH]; intros [|y b] [|n]; simpl; intros; try lia; auto.
  apply IH; lia.
Qed.

Lemma slice_inside {A} (a : list A) s e :
  (0 <= s)%Z -> (s <= e)%Z -> (e <= len a)%Z ->
  np.slice a s e = firstn (Z.to_nat (e - s)) (skipn (Z.to_nat s) a).
Proof.
  intros Hs He Hl. unfold np.slice, np.clip.
  destruct (Z.ltb_spec s 0); [lia|]. destruct (Z.ltb_spec e 0); [lia|].
  rewrite !Z.min_l by lia. reflexivity.
Qed.

Lemma slice_inside_length {A} (a : list A) s e :
  (0 <= s)%Z -> (s <= e)%Z -> (e <= len a)%Z ->
  length (np.slice a s e) = Z.to_nat (e - s).
Proof.
  intros. rewrite slice_inside by assumption.
  rewrite length_firstn, length_skipn. unfold len in *. lia.
Qed.

Lemma slice_inside_nth {A} (a : list A) s e d j :
  (0 <= s)%Z -> (s <= e)%Z -> (e <= len a)%Z -> (Z.of_nat j < e - s)%Z ->
  nth j (np.slice a s e) d = nth (Z.to_nat s + j) a d.
Proof.
  intros. rewrite slice_inside by assumption.
  rewrite nth_firstn. destruct (Nat.ltb_spec j (Z.to_nat (e - s))); [|lia].
  rewrite nth_skipn. reflexivity.
Qed.

Lemma broadcast_same {A B C} (f : A -> B -> C) a b :
  length a = length b -> np.broadcast f a b = Ok (np.zip_with f a b).
Proof. intros E; unfold np.broadcast; rewrite E, Nat.eqb_refl; reflexivity. Qed.

Lemma broadcast_into_same {A B C} (f : A -> B -> C) a b :
  length a = length b -> np.broadcast_into f a b = Ok (np.zip_with f a b).
Proof. intros E; unfold np.broadcast_into; rewrite E, Nat.eqb_refl; reflexivity. Qed.

(** [a[s : s + len b] += b] inside the array adds [b] at offset [s]. *)
Lemma iadd_slice_inside (a b : list R) (s : nat) :
  (s + length b <= length a)%nat ->
  exists a',
    np.iadd_slice a (Z.of_nat s) (Z.of_nat s + len b) b = Ok a' /\
    length a' = length a /\
    forall n, nth n a' 0 =
              nth n a 0 + (if (s <=? n)%nat && (n <? s + length b)%nat
                           then nth (n - s) b 0 else 0).
Proof.
  intros Hin. unfold np.iadd_slice.
  assert (Hlen : length (np.slice a (Z.of_nat s) (Z.of_nat s + len b)) = length b).
  { rewrite slice_inside_length; unfold len in *; lia. }
  rewrite (broadcast_into_same _ _ _ Hlen). cbn [bind].
  eexists; split; [reflexivity|].
  assert (Hclip : Z.to_nat (np.clip (len a) (Z.of_nat s)) = s).
  { unfold np.clip, len. destruct (Z.ltb_spec (Z.of_nat s) 0); lia. }
  rewrite Hclip, Hlen.
  split.
  - rewrite !length_app, length_firstn, zip_with_length, Hlen, length_skipn. lia.
  - intros n.
    destruct (Nat.leb_spec s n) as [Hsn|Hsn]; simpl andb.
    + rewrite app_nth2 by (rewrite length_firstn; lia).
      rewrite length_firstn, Nat.min_l by lia.
      destruct (Nat.ltb_spec n (s + length b)) as [Hn|Hn].
      * rewrite app_nth1 by (rewrite zip_with_length, Hlen; lia).
        rewrite (zip_with_nth _ _ _ 0 0) by lia.
        rewrite (slice_inside_nth a) by (unfold len in *; lia).
        rewrite Nat2Z.id. replace (s + (n - s))%nat with n by lia. reflexivity.
      * rewrite app_nth2 by (rewrite zip_with_length, Hlen; lia).
        rewrite zip_with_length, Hlen, Nat.min_id, nth_skipn.
        replace (s + length b + (n - s - length b))%nat with n by lia. lra.
    + rewrite app_nth1 by (rewrite length_firstn; lia).
      rewrite nth_firstn. destruct (Nat.ltb_spec n s); [lra|lia].
Qed.

Lemma replace_nth_length {A} i (x : A) l : length (np.replace_nth i x l) = length l.
Proof. revert i; induction l as [|y l IH]; intros [|i]; simpl; auto. Qed.

Lemma replace_nth_same {A} i (x : A) l :
  (i < length l)%nat -> nth_error (np.replace_nth i x l) i = Some x.
Proof.
  revert i; induction l as [|y l IH]; intros [|i]; simpl; intros; try lia; auto.
  apply IH; lia.
Qed.

Lemma replace_nth_other {A} i j (x : A) l :
  i <> j -> nth_error (np.replace_nth i x l) j = nth_error l j.
Proof.
  revert i j; induction l as [|y l IH]; intros [|i] [|j]; simpl; intros; try congruence; auto.
Qed.

Lemma replace_nth_Forall {A} (P : A -> Prop) i x l :
  P x -> Forall P l -> Forall P (np.replace_nth i x l).
Proof.
  intros Px Hl; revert i; induction Hl as [|y l Py Hl IH]; intros [|i]; simpl; auto.
Qed.

Lemma fft_ok x : x <> [] -> np.fft x = Ok (np.dft (-1) x).
Proof. destruct x; [congruence|reflexivity]. Qed.

Lemma ifft_ok x :
  x <> [] -> np.ifft x = Ok (map (Cscale (/ INR (length x))) (np.dft 1 x)).
Proof. destruct x; [congruence|reflexivity]. Qed.

Lemma zip_with_slice_window (w x : list R) (H : Z) (i : nat) :
  (0 <= H)%Z ->
  (Z.of_nat i * H + len w <= len x)%Z ->
  np.zip_with Rmult (np.slice x (Z.of_nat i * H) (Z.of_nat i * H + len w)) w
  = windowed_frame w x H i.
Proof.
  intros HH Hin. unfold windowed_frame.
  assert (Hl : length (np.slice x (Z.of_nat i * H) (Z.of_nat i * H + len w)) = length w).
  { rewrite slice_inside_length; unfold len in *; lia. }
  apply (nth_ext _ _ 0 0).
  - rewrite zip_with_length, Hl, length_map, length_seq. lia.
  - intros n Hn. rewrite zip_with_length, Hl, Nat.min_id in Hn.
    rewrite (zip_with_nth _ _ _ 0 0) by lia.
    rewrite nth_map_seq by lia.
    rewrite slice_inside_nth by (unfold len in *; lia). reflexivity.
Qed.

Lemma for_range_preserves {St} (P : St -> Prop) n body (s0 s : St) :
  (forall k a b, P a -> body k a = Ok b -> P b) ->
  P s0 -> for_range n body s0 = Ok s -> P s.
Proof.
  intros Hstep H0. revert s. induction n as [|n IH]; intros s E; simpl in E.
  - injection E as <-. exact H0.
  - destruct (for_range n body s0) as [a|e]; cbn [bind] in E; [|discriminate].
    apply (Hstep n a s); [apply IH; reflexivity|exact E].
Qed.

Lemma clip_range n k : (0 <= n)%Z -> (0 <= np.clip n k <= n)%Z.
Proof. intros Hn. unfold np.clip. destruct (Z.ltb_spec k 0); lia. Qed.

Lemma broadcast_into_length {A B C} (f : A -> B -> C) a b c :
  np.broadcast_into f a b = Ok c -> length c = length a.
Proof.
  unfold np.broadcast_into. destruct (Nat.eqb_spec (length a) (length b)) as [E|E].
  - intros [= <-]. rewrite zip_with_length. lia.
  - destruct a as [|x [|x' a]], b as [|y [|y' b]]; try discriminate;
      intros [= <-]; simpl; rewrite ?length_map; reflexivity.
Qed.

(** An in-place addition on a slice never changes the length of the array. *)
Lemma iadd_slice_length a s e b a' :
  np.iadd_slice a s e b = Ok a' -> length a' = length a.
Proof.
  unfold np.iadd_slice.
  destruct (np.broadcast_into Rplus (np.slice a s e) b) as [v|] eqn:E;
    cbn [bind]; [|discriminate].
  intros [= <-]. apply broadcast_into_length in E.
  pose proof (clip_range (len a) s ltac:(unfold len; lia)) as Hc.
  assert (Hv : (length (np.slice a s e) <= length a - Z.to_nat (np.clip (len a) s))%nat).
  { unfold np.slice. rewrite length_firstn, length_skipn. lia. }
  rewrite !length_app, length_firstn, length_skipn, E. unfold len in Hc. lia.
Qed.

(** A frame of two or more samples meets a window of another length. *)
Lemma broadcast_mismatch (a b : list R) :
  (2 <= length a)%nat -> length a <> length b ->
  np.broadcast Rmult a b =
  match b with
  | [y] => Ok (map (fun x => x * y) a)
  | _ => Raise (ValueError operands_not_broadcast)
  end.
Proof.
  intros Ha Hab. unfold np.broadcast.
  destruct (Nat.eqb_spec (length a) (length b)); [contradiction|].
  destruct a as [|x [|x' a]]; simpl in Ha; try lia. reflexivity.
Qed.

Lemma slice_prefix {A} (a : list A) (k : nat) :
  (k <= length a)%nat -> np.slice a 0 (Z.of_nat k) = firstn k a.
Proof.
  intros Hk. rewrite slice_inside by (unfold len; lia).
  rewrite Z.sub_0_r, Nat2Z.id. reflexivity.
Qed.

Lemma firstn_as_map (a : list R) k :
  (k <= length a)%nat -> firstn k a = map (fun i => nth i a 0) (seq 0 k).
Proof.
  intros Hk. apply (nth_ext _ _ 0 0).
  - rewrite length_firstn, length_map, length_seq. lia.
  - intros n Hn. rewrite length_firstn in Hn.
    rewrite nth_firstn. destruct (Nat.ltb_spec n k); [|lia].
    rewrite nth_map_seq by lia. reflexivity.
Qed.

Lemma zip_with_maps {A} (f : R -> R -> R) (g h : A -> R) l :
  np.zip_with f (map g l) (map h l) = map (fun a => f (g a) (h a)) l.
Proof. induction l; simpl; congruence. Qed.

Lemma Rsum_squares_nonneg {A} (g : A -> R) l : 0 <= Rsum (map (fun a => g a * g a) l).
Proof.
  unfold Rsum. induction l as [|a l IH]; simpl; [lra|].
  pose proof (Rle_0_sqr (g a)) as S. unfold Rsqr in S. lra.
Qed.

(* ----------------------------------------------------------------- *)
(** ** Construction *)

Lemma general_cosine_length M a w :
  scipy.general_cosine M a = Ok w -> (0 <= M)%Z /\ length w = Z.to_nat M.
Proof.
  unfold scipy.general_cosine.
  destruct (Z.ltb_spec M 0); [discriminate|].
  destruct (Z.leb_spec M 1); intros [= <-].
  - rewrite repeat_length; auto.
  - rewrite length_map, length_seq; auto.
Qed.

Lemma bartlett_length M w :
  scipy.bartlett M = Ok w -> (0 <= M)%Z /\ length w = Z.to_nat M.
Proof.
  unfold scipy.bartlett.
  destruct (Z.ltb_spec M 0); [discriminate|].
  destruct (Z.leb_spec M 1); intros [= <-].
  - rewrite repeat_length; auto.
  - rewrite length_map, length_seq; auto.
Qed.

Lemma get_window_length t M w :
  scipy.get_window t M = Ok w -> (0 <= M)%Z /\ length w = Z.to_nat M.
Proof.
  unfold scipy.get_window, scipy.hann, scipy.hamming, scipy.blackman.
  repeat match goal with |- context [if ?b then _ else _] => destruct b end;
    eauto using general_cosine_length, bartlett_length; discriminate.
Qed.

Lemma init_ok_inv W H t p :
  __init__ W H t = Ok p ->
  window_size p = W /\ hop_length p = H /\ window_type p = t /\
  (0 <= W)%Z /\ len (window p) = W /\ In t supported_windows.
Proof.
  unfold __init__, _get_window.
  destruct (existsb (String.eqb t) supported_windows) eqn:E; simpl; [|discriminate].
  destruct (scipy.get_window t W) as [w|e] eqn:G; simpl; [|discriminate].
  intros [= <-]; simpl. apply get_window_length in G as [HW Hl].
  repeat split; auto.
  - unfold len; lia.
  - apply existsb_exists in E as (s & Hs & Es). apply String.eqb_eq in Es; subst; auto.
Qed.

Lemma supported_windows_spec t :
  existsb (String.eqb t) supported_windows = true <-> In t supported_windows.
Proof.
  rewrite existsb_exists. split.
  - intros (s & Hs & E). apply String.eqb_eq in E. subst. exact Hs.
  - intros Hin. exists t. split; [exact Hin|apply String.eqb_refl].
Qed.

Lemma general_cosine_ok M a :
  (0 <= M)%Z -> exists w, scipy.general_cosine M a = Ok w.
Proof.
  intros HM. unfold scipy.general_cosine.
  destruct (Z.ltb_spec M 0); [lia|]. destruct (M <=? 1)%Z; eexists; reflexivity.
Qed.

Lemma general_cosine_negative M a :
  (M < 0)%Z -> scipy.general_cosine M a = Raise (ValueError bad_window_length).
Proof.
  intros HM. unfold scipy.general_cosine.
  destruct (Z.ltb_spec M 0); [reflexivity|lia].
Qed.

Lemma get_window_supported t M :
  In t supported_windows ->
  ((0 <= M)%Z -> exists w, scipy.get_window t M = Ok w) /\
  ((M < 0)%Z -> scipy.get_window t M = Raise (ValueError bad_window_length)).
Proof.
  intros Hin. simpl in Hin.
  destruct Hin as [<-|[<-|[<-|[<-|[]]]]]; split; intros HM;
    unfold scipy.get_window; cbn [String.eqb Ascii.eqb Bool.eqb];
    unfold scipy.hann, scipy.hamming, scipy.blackman;
    auto using general_cosine_ok, general_cosine_negative.
  - unfold scipy.bartlett.
    destruct (Z.ltb_spec M 0); [lia|]. destruct (M <=? 1)%Z; eexists; reflexivity.
  - unfold scipy.bartlett. destruct (Z.ltb_spec M 0); [reflexivity|lia].
Qed.

Lemma init_supported W H t :
  In t supported_windows ->
  __init__ W H t = (w <- scipy.get_window t W ;; Ok (mkSelf W H t w)).
Proof.
  intros Hin. apply supported_windows_spec in Hin.
  unfold __init__, _get_window. rewrite Hin. reflexivity.
Qed.


(** C7 (as the code has it).  Construction checks the window type only.
    With a supported type and a positive window size, every hop length is
    accepted: zero, negative or larger than the window.  The class does
    not look at the window size either: a negative one is refused by the
    window generator of the library. *)
Theorem init_checks_no_size (W H : Z) (t : string) :
  In t supported_windows ->
  ((0 < W)%Z ->
   exists w, __init__ W H t = Ok (mkSelf W H t w) /\ len w = W) /\
  ((W < 0)%Z -> __init__ W H t = Raise (ValueError bad_window_length)).
Proof.
  intros Hin. rewrite (init_supported W H t Hin).
  destruct (get_window_supported t W Hin) as [Hok Hneg]. split; intros HW.
  - destruct (Hok ltac:(lia)) as (w & E). exists w. rewrite E. split; [reflexivity|].
    apply get_window_length in E as [_ E]. unfold len. lia.
  - rewrite (Hneg HW). reflexivity.
Qed.

Lemma init_checks_no_size_witness :
  (exists w, __init__ 4 (-3) "bartlett" = Ok (mkSelf 4 (-3) "bartlett" w) /\ len w = 4%Z)
  /\ __init__ (-1) 512 "hann" = Raise (ValueError bad_window_length).
Proof.
  split.
  - apply (init_checks_no_size 4 (-3) "bartlett"); [simpl; tauto|lia].
  - apply (init_checks_no_size (-1) 512 "hann"); [simpl; tauto|lia].
Defined.

(** C7, refuted as stated: with a window of four samples, a zero hop, a
    negative hop and a hop larger than the window are all constructed. *)
Lemma init_accepts_invalid_sizes :
  (exists p, __init__ 4 0 "hann" = Ok p /\ hop_length p = 0%Z) /\
  (exists p, __init__ 4 (-3) "hann" = Ok p /\ hop_length p = (-3)%Z) /\
  (exists p, __init__ 4 8 "hann" = Ok p /\ hop_length p = 8%Z /\ window_size p = 4%Z).
Proof.
  repeat split; eexists; (split; [reflexivity|]); simpl; auto.
Qed.



(* ----------------------------------------------------------------- *)
(** ** The forward transform *)

Section Forward.
Variable p : self.
Let W := window_size p.
Let H := hop_length p.
Hypothesis window_len : len (window p) = W.
Hypothesis W_pos : (0 < W)%Z.
Hypothesis H_pos : (0 < H)%Z.

Variable x : list R.
Hypothesis long_enough : (W <= len x)%Z.

Let fc := frame_count (len x) W H.

Lemma frame_count_pos : (1 <= fc)%Z.
Proof.
  unfold fc, frame_count. assert (0 <= (len x - W) / H)%Z by (apply Z.div_pos; lia). lia.
Qed.

Lemma frame_inside i :
  (Z.of_nat i < fc)%Z -> (Z.of_nat i * H + W <= len x)%Z.
Proof.
  unfold fc, frame_count. intros Hi.
  assert (H * ((len x - W) / H) <= len x - W)%Z by (apply Z.mul_div_le; lia).
  nia.
Qed.

Lemma stft_frame_ok i m :
  (Z.of_nat i < fc)%Z ->
  np.shape0 m = Z.to_nat W -> (i < length (np.columns m))%nat ->
  stft_frame p x i m =
  Ok (np.mkMatrix (np.shape0 m)
        (np.replace_nth i (np.dft (-1) (np.as_complex (windowed_frame (window p) x H i)))
                        (np.columns m))).
Proof.
  intros Hi Hs Hc. unfold stft_frame. fold W H.
  pose proof (frame_inside i Hi) as Hin.
  rewrite broadcast_same
    by (rewrite slice_inside_length; unfold len in *; lia).
  cbn [bind]. rewrite <- window_len at 1.
  rewrite zip_with_slice_window by (unfold len in *; lia).
  assert (Hl : length (windowed_frame (window p) x H i) = Z.to_nat W).
  { unfold windowed_frame. rewrite length_map, length_seq. unfold len in *; lia. }
  rewrite fft_ok.
  2:{ unfold np.as_complex. intros E. apply (f_equal (@length _)) in E.
      rewrite length_map, Hl in E. simpl in E. lia. }
  cbn [bind]. unfold np.set_column.
  destruct (Nat.leb_spec (length (np.columns m)) i); [lia|].
  rewrite dft_length. unfold np.as_complex at 1. rewrite length_map, Hl, Hs, Nat.eqb_refl.
  reflexivity.
Qed.

Theorem stft_columns :
  exists m,
    stft p x = Ok m /\
    np.shape0 m = Z.to_nat W /\ np.shape1 m = fc /\ np.rectangular m /\
    forall i, (Z.of_nat i < fc)%Z ->
      nth_error (np.columns m) i
      = Some (np.dft (-1) (np.as_complex (windowed_frame (window p) x H i))).
Proof.
  pose proof frame_count_pos as Hfc.
  unfold stft. fold W H. unfold floordiv.
  destruct (Z.eqb_spec H 0); [lia|]. cbn [bind].
  change (1 + (len x - W) / H)%Z with fc.
  unfold np.zeros2.
  destruct (Z.ltb_spec W 0); [lia|]. destruct (Z.ltb_spec fc 0); [lia|]. cbn [bind].
  set (m0 := np.mkMatrix _ _).
  destruct (@for_range_invariant np.matrix
    (fun k m => np.shape0 m = Z.to_nat W /\ length (np.columns m) = Z.to_nat fc /\
                np.rectangular m /\
                forall i, (i < k)%nat ->
                  nth_error (np.columns m) i
                  = Some (np.dft (-1) (np.as_complex (windowed_frame (window p) x H i))))
    (Z.to_nat fc) (stft_frame p x) m0) as (m & Hm & Hs & Hc & Hr & Hcols).
  - subst m0; simpl. rewrite repeat_length. repeat split; auto.
    + unfold np.rectangular; simpl. apply Forall_forall. intros c Hc.
      apply repeat_spec in Hc; subst. apply repeat_length.
    + intros; lia.
  - intros k m Hk (Hs & Hc & Hr & Hcols).
    eexists; split; [apply stft_frame_ok; lia|]. simpl.
    rewrite replace_nth_length. repeat split; auto.
    + unfold np.rectangular in *; simpl. apply replace_nth_Forall; auto.
      rewrite dft_length. unfold np.as_complex, windowed_frame.
      rewrite !length_map, length_seq. unfold len in *; lia.
    + intros i Hi. destruct (Nat.eq_dec i k) as [->|Hne].
      * apply replace_nth_same; lia.
      * rewrite replace_nth_other by congruence. apply Hcols; lia.
  - exists m. split; [exact Hm|]. split; [exact Hs|]. split; [|split; [exact Hr|]].
    + unfold np.shape1, len. rewrite Hc. apply Z2Nat.id. lia.
    + intros i Hi. apply Hcols. lia.
Qed.
End Forward.

(** The scenario of the specification: 1000 samples, window 200, hop 50. *)
Example frame_count_1000_200_50 :
  frame_count 1000 200 50 = 17%Z /\ ((17 - 1) * 50 + 200 = 1000)%Z.
Proof. split; reflexivity. Qed.

(** C2. For a processor built by [__init__] with positive sizes and a
    signal of [L >= W] samples, [stft] returns a matrix of shape
    [(W, 1 + floor((L - W) / H))] whose column [i] is the forward transform
    of the window-multiplied frame that starts at sample [i * H]. *)
Theorem stft_shape_and_columns (W H : Z) (t : string) (p : self) (x : list R) :
  __init__ W H t = Ok p -> (0 < W)%Z -> (0 < H)%Z -> (W <= len x)%Z ->
  exists m,
    stft p x = Ok m /\
    Z.of_nat (np.shape0 m) = W /\
    np.shape1 m = frame_count (len x) W H /\
    np.rectangular m /\
    forall i, (Z.of_nat i < frame_count (len x) W H)%Z ->
      exists col,
        np.column m i = Ok col /\
        np.fft (np.as_complex (windowed_frame (window p) x H i)) = Ok col /\
        forall j, (Z.of_nat j < W)%Z ->
          nth j (windowed_frame (window p) x H i) 0
          = nth (Z.to_nat (Z.of_nat i * H) + j) x 0 * nth j (window p) 0.
Proof.
  intros Hinit HW HH HL.
  destruct (init_ok_inv _ _ _ _ Hinit) as (EW & EH & _ & _ & Hwl & _).
  destruct (stft_columns p) with (x := x) as (m & Em & Hs & Hc & Hr & Hcols);
    try (rewrite ?EW, ?EH; assumption).
  rewrite EW, EH in *.
  exists m. split; [exact Em|]. split; [lia|]. split; [exact Hc|]. split; [exact Hr|].
  intros i Hi. eexists. split; [|split].
  - unfold np.column. rewrite (Hcols i Hi). reflexivity.
  - apply fft_ok. intros E. apply (f_equal (@length _)) in E.
    unfold np.as_complex, windowed_frame in E. rewrite !length_map, length_seq in E.
    unfold len in Hwl. simpl in E. lia.
  - intros j Hj. unfold windowed_frame.
    rewrite nth_map_seq by (unfold len in Hwl; lia). reflexivity.
Qed.

Lemma stft_shape_and_columns_witness :
  exists m,
    stft hann_4_2 ramp_8 = Ok m /\
    Z.of_nat (np.shape0 m) = 4%Z /\ np.shape1 m = 3%Z.
Proof.
  destruct (stft_shape_and_columns 4 2 "hann" hann_4_2 ramp_8)
    as (m & Em & Hs & Hc & _).
  - reflexivity.
  - lia.
  - lia.
  - vm_compute. discriminate.
  - exists m. split; [exact Em|]. split; [exact Hs|exact Hc].
Defined.

(** C10. Two signals of one length [L >= W] that agree on the first
    [(frame_count - 1) * H + W] samples have the same transform: the
    samples after the last frame are not read. *)
Theorem stft_ignores_tail (W H : Z) (t : string) (p : self) (a b : list R) :
  __init__ W H t = Ok p -> (0 < W)%Z -> (0 < H)%Z -> (W <= len a)%Z ->
  len a = len b ->
  (let used := Z.to_nat ((frame_count (len a) W H - 1) * H + W) in
   firstn used a = firstn used b) ->
  stft p a = stft p b /\ exists m, stft p a = Ok m.
Proof.
  intros Hinit HW HH HL Hab Hused.
  destruct (init_ok_inv _ _ _ _ Hinit) as (EW & EH & _ & _ & Hwl & _).
  destruct (stft_columns p) with (x := a) as (ma & Ea & Hsa & Hca & Hra & Hcolsa);
    try (rewrite ?EW, ?EH; assumption).
  destruct (stft_columns p) with (x := b) as (mb & Eb & Hsb & Hcb & Hrb & Hcolsb);
    try (rewrite ?EW, ?EH, <- ?Hab; assumption).
  rewrite EW, EH in *. rewrite <- Hab in *.
  split; [|exists ma; exact Ea].
  rewrite Ea, Eb. f_equal.
  destruct ma as [ra ca], mb as [rb cb]; simpl in *.
  f_equal; [congruence|].
  unfold np.shape1, len in Hca, Hcb. simpl in Hca, Hcb.
  apply nth_error_ext. intros i.
  destruct (Z.lt_ge_cases (Z.of_nat i) (frame_count (len a) W H)) as [Hi|Hi].
  - rewrite Hcolsa, Hcolsb by exact Hi. do 3 f_equal.
    unfold windowed_frame. apply map_ext_in. intros j Hj. apply in_seq in Hj.
    f_equal.
    set (used := Z.to_nat ((frame_count (len a) W H - 1) * H + W)) in *.
    assert (Hk : (Z.to_nat (Z.of_nat i * H) + j < used)%nat).
    { unfold used, len in *. nia. }
    assert (Hnth : forall l : list R,
              nth (Z.to_nat (Z.of_nat i * H) + j) l 0
              = nth (Z.to_nat (Z.of_nat i * H) + j) (firstn used l) 0).
    { intros l. rewrite nth_firstn.
      destruct (Nat.ltb_spec (Z.to_nat (Z.of_nat i * H) + j) used); [reflexivity|lia]. }
    rewrite (Hnth a), (Hnth b), Hused. reflexivity.
  - unfold len in *.
    rewrite (proj2 (nth_error_None ca i)) by lia.
    rewrite (proj2 (nth_error_None cb i)) by lia. reflexivity.
Qed.

Lemma stft_ignores_tail_witness :
  stft hann_4_2 [1; 2; 3; 4; 5; 6; 7] = stft hann_4_2 [1; 2; 3; 4; 5; 6; 9].
Proof.
  apply (stft_ignores_tail 4 2 "hann" hann_4_2 [1; 2; 3; 4; 5; 6; 7] [1; 2; 3; 4; 5; 6; 9]).
  - reflexivity.
  - lia.
  - lia.
  - vm_compute. discriminate.
  - reflexivity.
  - reflexivity.
Defined.

(** C3 (as the code has it).  For a positive hop and a signal shorter
    than the window no frame is transformed: [stft] returns the empty
    [W x 0] matrix when at most [H] samples are missing, and raises the
    [ValueError] of the matrix allocation when more are. *)
Theorem stft_short_signal (p : self) (x : list R) :
  (0 < hop_length p)%Z -> (len x < window_size p)%Z ->
  stft p x =
  if (window_size p - len x <=? hop_length p)%Z
  then Ok (np.mkMatrix (Z.to_nat (window_size p)) [])
  else Raise (ValueError negative_dimensions).
Proof.
  intros HH HL. unfold stft, floordiv.
  destruct (Z.eqb_spec (hop_length p) 0); [lia|]. cbn [bind].
  assert (0 <= len x)%Z by (unfold len; lia).
  assert (Hq : ((len x - window_size p) / hop_length p < 0)%Z)
    by (apply Z.div_lt_upper_bound; lia).
  unfold np.zeros2.
  destruct (Z.ltb_spec (window_size p) 0); [lia|]. cbn [orb].
  destruct (Z.leb_spec (window_size p - len x) (hop_length p)) as [Hle|Hgt].
  - assert (Eq : ((len x - window_size p) / hop_length p = -1)%Z).
    { symmetry. apply (Z.div_unique _ _ _ (len x - window_size p + hop_length p)); lia. }
    rewrite Eq. reflexivity.
  - assert (Hlt : ((len x - window_size p) / hop_length p < -1)%Z).
    { apply Z.div_lt_upper_bound; lia. }
    destruct (Z.ltb_spec (1 + (len x - window_size p) / hop_length p) 0); [|lia].
    reflexivity.
Qed.

Lemma stft_short_signal_witness :
  stft hann_2048_512 ones_1000 = Raise (ValueError negative_dimensions).
Proof.
  exact (stft_short_signal hann_2048_512 ones_1000 eq_refl eq_refl).
Defined.

(** C3, refuted as stated: a three-sample signal under a four-sample
    window is transformed without an exception, into a matrix without
    columns. *)
Lemma stft_short_signal_not_rejected :
  stft hann_4_2 [1; 1; 1] = Ok (np.mkMatrix 4 []) /\
  forall e, stft hann_4_2 [1; 1; 1] <> Raise e.
Proof.
  assert (E : stft hann_4_2 [1; 1; 1] = Ok (np.mkMatrix 4 [])) by reflexivity.
  split; [exact E|]. intros e. rewrite E. discriminate.
Qed.

(* ----------------------------------------------------------------- *)
(** ** Overlap-add reconstruction *)

Lemma overlap_sum_S W H k f n :
  overlap_sum W H (S k) f n
  = overlap_sum W H k f n
    + (if covers W H k n then f k (Z.to_nat (Z.of_nat n - Z.of_nat k * H)) else 0).
Proof.
  unfold overlap_sum. rewrite seq_S, map_app, Rsum_app. simpl. lra.
Qed.

Lemma fdiv_finite a b : b <> 0 -> fdiv a b = Finite (a / b).
Proof. intros Hb. unfold fdiv. destruct (Req_dec_T b 0); [contradiction|reflexivity]. Qed.

Lemma divisor_pos e : 1e-6 <= divisor e.
Proof. unfold divisor. destruct (Rlt_dec e 1e-6); lra. Qed.

Section Inverse.
Variable p : self.
Let W := window_size p.
Let H := hop_length p.
Hypothesis window_len : len (window p) = W.
Hypothesis W_pos : (0 < W)%Z.
Hypothesis H_pos : (0 < H)%Z.

Variable m : np.matrix.
Hypothesis m_rect : np.rectangular m.
Hypothesis m_rows : Z.of_nat (np.shape0 m) = W.
Hypothesis m_cols : (1 <= np.shape1 m)%Z.

Let fc := length (np.columns m).
Let N := Z.to_nat ((np.shape1 m - 1) * H + W).

Let frame (i : nat) : list R := inverse_frame (window p) (nth i (np.columns m) []).

Lemma column_length i :
  (i < fc)%nat -> length (nth i (np.columns m) []) = Z.to_nat W.
Proof.
  intros Hi. unfold np.rectangular in m_rect.
  rewrite Forall_forall in m_rect. rewrite (m_rect (nth i (np.columns m) [])).
  - lia.
  - apply nth_In; exact Hi.
Qed.

Lemma rewindow_ok i :
  (i < fc)%nat ->
  (col <- np.column m i ;; spectrum <- np.ifft col ;;
   np.broadcast Rmult (np.real spectrum) (window p)) = Ok (frame i).
Proof.
  intros Hi. unfold np.column.
  rewrite (nth_error_nth' _ [] Hi). cbn [bind].
  pose proof (column_length i Hi) as Hl.
  rewrite ifft_ok by (intros E; rewrite E in Hl; simpl in Hl; lia).
  cbn [bind].
  assert (Hw : length (window p) = Z.to_nat W) by (unfold len in *; lia).
  rewrite broadcast_same
    by (unfold np.real; rewrite !length_map, dft_length; lia).
  f_equal. unfold frame, inverse_frame.
  apply (nth_ext _ _ 0 0).
  - rewrite zip_with_length, length_map, length_seq.
    unfold np.real; rewrite !length_map, dft_length. lia.
  - intros n Hn. rewrite zip_with_length in Hn.
    unfold np.real in *. rewrite !length_map, dft_length in Hn.
    rewrite (zip_with_nth _ _ _ 0 0) by (rewrite ?length_map, ?dft_length; lia).
    rewrite nth_map_seq by lia.
    rewrite (nth_indep _ 0 (Re C0)) by (rewrite !length_map, dft_length; lia).
    rewrite map_nth.
    rewrite (nth_indep _ C0 (Cscale (/ INR (length (nth i (np.columns m) []))) C0))
      by (rewrite length_map, dft_length; lia).
    rewrite map_nth. reflexivity.
Qed.

Lemma frame_length i : length (frame i) = Z.to_nat W.
Proof.
  unfold frame, inverse_frame. rewrite length_map, length_seq. unfold len in *; lia.
Qed.

Lemma covers_nat k (n : nat) b :
  (Z.of_nat b = W) ->
  ((Z.to_nat (Z.of_nat k * H) <=? n)%nat && (n <? Z.to_nat (Z.of_nat k * H) + b)%nat)
  = covers W H k n.
Proof.
  intros Hb. unfold covers.
  assert (0 <= Z.of_nat k * H)%Z by nia.
  destruct (Z.leb_spec (Z.of_nat k * H) (Z.of_nat n));
    destruct (Nat.leb_spec (Z.to_nat (Z.of_nat k * H)) n); try lia; simpl; try reflexivity.
  destruct (Z.ltb_spec (Z.of_nat n) (Z.of_nat k * H + W));
    destruct (Nat.ltb_spec n (Z.to_nat (Z.of_nat k * H) + b)); try lia; reflexivity.
Qed.

Lemma istft_frame_ok k sig ws :
  (k < fc)%nat -> length sig = N -> length ws = N ->
  exists sig' ws',
    istft_frame p m k (sig, ws) = Ok (sig', ws') /\
    length sig' = N /\ length ws' = N /\
    (forall n, nth n sig' 0 = nth n sig 0 +
       (if covers W H k n then nth (Z.to_nat (Z.of_nat n - Z.of_nat k * H)) (frame k) 0 else 0)) /\
    (forall n, nth n ws' 0 = nth n ws 0 +
       (if covers W H k n then nth (Z.to_nat (Z.of_nat n - Z.of_nat k * H)) (window p) 0 else 0)).
Proof.
  intros Hk Hsig Hws.
  assert (HN : (Z.to_nat (Z.of_nat k * H) + Z.to_nat W <= N)%nat).
  { unfold N, np.shape1, len. fold fc. nia. }
  assert (Hw : length (window p) = Z.to_nat W) by (unfold len in *; lia).
  pose proof (frame_length k) as Hf.
  destruct (iadd_slice_inside sig (frame k) (Z.to_nat (Z.of_nat k * H)))
    as (sig' & E1 & L1 & N1); [lia|].
  destruct (iadd_slice_inside ws (window p) (Z.to_nat (Z.of_nat k * H)))
    as (ws' & E2 & L2 & N2); [lia|].
  exists sig', ws'.
  assert (Hstart : Z.of_nat (Z.to_nat (Z.of_nat k * H)) = (Z.of_nat k * H)%Z) by nia.
  rewrite Hstart in E1, E2.
  replace (len (frame k)) with W in E1 by (unfold len; lia).
  replace (len (window p)) with W in E2 by (unfold len; lia).
  split.
  - unfold istft_frame. fold W H.
    pose proof (rewindow_ok k Hk) as R.
    destruct (np.column m k) as [col|]; cbn [bind] in R |- *; [|discriminate].
    destruct (np.ifft col) as [sp|]; cbn [bind] in R |- *; [|discriminate].
    rewrite R. cbn [bind]. rewrite E1. cbn [bind]. rewrite E2. reflexivity.
  - repeat split; try congruence.
    + intros n. rewrite N1, covers_nat by lia.
      replace (n - Z.to_nat (Z.of_nat k * H))%nat
        with (Z.to_nat (Z.of_nat n - Z.of_nat k * H)) by lia. reflexivity.
    + intros n. rewrite N2, covers_nat by lia.
      replace (n - Z.to_nat (Z.of_nat k * H))%nat
        with (Z.to_nat (Z.of_nat n - Z.of_nat k * H)) by lia. reflexivity.
Qed.

Theorem overlap_add_ok :
  exists sig ws,
    overlap_add p m = Ok (sig, ws) /\
    length sig = N /\ length ws = N /\
    (forall n, nth n sig 0 = overlap_sum W H fc (fun i j => nth j (frame i) 0) n) /\
    (forall n, nth n ws 0 = overlap_sum W H fc (fun _ j => nth j (window p) 0) n).
Proof.
  unfold overlap_add. fold W H. unfold np.zeros.
  destruct (Z.ltb_spec ((np.shape1 m - 1) * H + W) 0); [nia|]. cbn [bind].
  fold N.
  destruct (@for_range_invariant (list R * list R)
    (fun k s => length (fst s) = N /\ length (snd s) = N /\
       (forall n, nth n (fst s) 0 = overlap_sum W H k (fun i j => nth j (frame i) 0) n) /\
       (forall n, nth n (snd s) 0 = overlap_sum W H k (fun _ j => nth j (window p) 0) n))
    fc (istft_frame p m) (repeat 0 N, repeat 0 N)) as ([sig ws] & E & I).
  - simpl. rewrite repeat_length. repeat split; auto;
      intros n; unfold overlap_sum; simpl;
      (destruct (Nat.lt_ge_cases n N);
       [apply nth_repeat_lt; assumption | apply nth_overflow; rewrite repeat_length; assumption]).
  - intros k [sig ws] Hk (L1 & L2 & N1 & N2). simpl in *.
    destruct (istft_frame_ok k sig ws Hk L1 L2) as (sig' & ws' & E & L1' & L2' & N1' & N2').
    exists (sig', ws'). split; [exact E|]. simpl. repeat split; auto.
    + intros n. rewrite N1', N1, overlap_sum_S. reflexivity.
    + intros n. rewrite N2', N2, overlap_sum_S. reflexivity.
  - exists sig, ws. unfold np.shape1, len. rewrite Nat2Z.id. fold fc. simpl in I. tauto.
Qed.

(** The normalisation after the loop. *)
Theorem istft_ok :
  exists sig ws out,
    overlap_add p m = Ok (sig, ws) /\
    istft p m = Ok out /\
    length sig = N /\ length ws = N /\ length out = N /\
    forall n, (n < N)%nat ->
      nth n out NaN = fdiv (nth n sig 0) (divisor (nth n ws 0)) /\
      nth n out NaN = Finite (nth n sig 0 / divisor (nth n ws 0)).
Proof.
  destruct overlap_add_ok as (sig & ws & E & L1 & L2 & _).
  exists sig, ws. unfold istft. rewrite E. cbn [bind].
  assert (Hl : length sig = length (np.where_lt_set ws 1e-6 1)).
  { unfold np.where_lt_set. rewrite length_map. congruence. }
  rewrite (broadcast_into_same _ _ _ Hl).
  eexists. split; [reflexivity|]. split; [reflexivity|].
  split; [exact L1|]. split; [exact L2|].
  split; [rewrite zip_with_length, <- Hl, Nat.min_id; exact L1|].
  intros n Hn.
  rewrite (zip_with_nth _ _ _ 0 0) by lia.
  change (np.where_lt_set ws 1e-6 1) with (map divisor ws).
  rewrite (nth_indep (map divisor ws) 0 (divisor 0)) by (rewrite length_map; lia).
  rewrite (map_nth divisor ws 0 n).
  split; [reflexivity|]. apply fdiv_finite.
  pose proof (divisor_pos (nth n ws 0)). lra.
Qed.
End Inverse.

(* ----------------------------------------------------------------- *)
(** *** The normalisation, on binary64 *)

Section Binary64.

Import PrimFloat.

Lemma f64_iadd_slice_length a s e b a' :
  f64.iadd_slice a s e b = Ok a' -> length a' = length a.
Proof.
  unfold f64.iadd_slice.
  destruct (np.broadcast_into add (np.slice a s e) b) as [v|] eqn:E;
    cbn [bind]; [|discriminate].
  intros [= <-]. apply broadcast_into_length in E.
  pose proof (clip_range (len a) s ltac:(unfold len; lia)) as Hc.
  assert (Hv : (length (np.slice a s e) <= length a - Z.to_nat (np.clip (len a) s))%nat).
  { unfold np.slice. rewrite length_firstn, length_skipn. lia. }
  rewrite !length_app, length_firstn, length_skipn, E. unfold len in Hc. lia.
Qed.

Lemma f64_iadd_slice_inside (a b : list float) (s : nat) :
  (s + length b <= length a)%nat ->
  exists a', f64.iadd_slice a (Z.of_nat s) (Z.of_nat s + len b) b = Ok a'.
Proof.
  intros Hin. unfold f64.iadd_slice.
  assert (Hlen : length (np.slice a (Z.of_nat s) (Z.of_nat s + len b)) = length b).
  { rewrite slice_inside_length; unfold len in *; lia. }
  rewrite (broadcast_into_same _ _ _ Hlen). cbn [bind].
  eexists; reflexivity.
Qed.

Lemma f64_overlap_add_lengths ifft p m sig ws :
  f64.overlap_add ifft p m = Ok (sig, ws) -> length sig = length ws.
Proof.
  unfold f64.overlap_add, f64.zeros.
  destruct (_ <? 0)%Z; cbn [bind]; [discriminate|].
  apply (for_range_preserves (fun s => length (fst s) = length (snd s))).
  - intros k [a1 a2] [b1 b2] Ha. unfold f64.istft_frame.
    destruct (f64.column m k); cbn [bind]; [|discriminate].
    destruct (ifft a); cbn [bind]; [|discriminate].
    destruct (np.broadcast _ _ _); cbn [bind]; [|discriminate].
    destruct (f64.iadd_slice a1 _ _ _) as [c1|] eqn:E1; cbn [bind]; [|discriminate].
    destruct (f64.iadd_slice a2 _ _ _) as [c2|] eqn:E2; cbn [bind]; [|discriminate].
    intros [= <- <-]. apply f64_iadd_slice_length in E1, E2. simpl in *. congruence.
  - simpl. rewrite !repeat_length. reflexivity.
Qed.

(** With the shapes right and a transform that answers on every column,
    the loop of [istft] ends without an exception, on two buffers of
    [(frame_count - 1) * hop_length + window_size] samples. *)
Lemma f64_overlap_add_returns ifft p m :
  (0 < f64.window_size p)%Z -> (0 < f64.hop_length p)%Z ->
  len (f64.window p) = f64.window_size p ->
  f64.rectangular m -> Z.of_nat (f64.shape0 m) = f64.window_size p ->
  (1 <= f64.shape1 m)%Z ->
  Forall (fun c => exists y, ifft c = Ok y /\ length y = length c) (f64.columns m) ->
  exists sig ws,
    f64.overlap_add ifft p m = Ok (sig, ws) /\
    len sig = ((f64.shape1 m - 1) * f64.hop_length p + f64.window_size p)%Z /\
    length ws = length sig.
Proof.
  intros HW HH Hwl Hrect Hrows Hcols Hfft.
  set (L := ((f64.shape1 m - 1) * f64.hop_length p + f64.window_size p)%Z).
  assert (HL : (0 < L)%Z) by (unfold L; nia).
  unfold f64.overlap_add, f64.zeros. fold L.
  destruct (Z.ltb_spec L 0); [lia|]. cbn [bind].
  destruct (for_range_invariant
              (fun _ s => length (fst s) = Z.to_nat L /\ length (snd s) = Z.to_nat L)
              (Z.to_nat (f64.shape1 m)) (f64.istft_frame ifft p m)
              (repeat 0%float (Z.to_nat L), repeat 0%float (Z.to_nat L)))
    as ([sig ws] & E & L1 & L2).
  - simpl. rewrite !repeat_length. auto.
  - intros k [a1 a2] Hk [La1 La2]. simpl in La1, La2.
    unfold f64.shape1, len in Hk.
    unfold f64.istft_frame, f64.column.
    destruct (nth_error (f64.columns m) k) as [c|] eqn:Ec;
      [|apply nth_error_None in Ec; lia].
    cbn [bind].
    pose proof (nth_error_In _ _ Ec) as Hin.
    destruct (proj1 (Forall_forall _ _) Hfft c Hin) as (y & Ey & Ly).
    pose proof (proj1 (Forall_forall _ _) Hrect c Hin) as Lc. simpl in Lc.
    rewrite Ey. cbn [bind].
    assert (Lw : length (f64.window p) = Z.to_nat (f64.window_size p))
      by (unfold len in Hwl; lia).
    assert (Lr : length (f64.real y) = length (f64.window p)).
    { transitivity (length y); [apply length_map|lia]. }
    rewrite (broadcast_same _ _ _ Lr). cbn [bind].
    set (frame := np.zip_with mul (f64.real y) (f64.window p)).
    assert (Lf : length frame = length (f64.window p)).
    { unfold frame. rewrite zip_with_length, Lr. apply Nat.min_id. }
    assert (Hfit : (Z.of_nat k * f64.hop_length p + f64.window_size p <= L)%Z).
    { unfold L, f64.shape1, len. nia. }
    assert (Hk0 : (0 <= Z.of_nat k * f64.hop_length p)%Z) by nia.
    set (s := Z.to_nat (Z.of_nat k * f64.hop_length p)).
    assert (Es : (Z.of_nat k * f64.hop_length p)%Z = Z.of_nat s) by (unfold s; lia).
    rewrite Es.
    replace (Z.of_nat s + f64.window_size p)%Z with (Z.of_nat s + len frame)%Z
      by (unfold len; lia).
    destruct (f64_iadd_slice_inside a1 frame s) as (b1 & E1); [lia|].
    rewrite E1. cbn [bind].
    replace (len frame) with (len (f64.window p)) by (unfold len; lia).
    destruct (f64_iadd_slice_inside a2 (f64.window p) s) as (b2 & E2); [lia|].
    rewrite E2. cbn [bind].
    exists (b1, b2). split; [reflexivity|]. simpl.
    apply f64_iadd_slice_length in E1, E2. lia.
  - exists sig, ws. simpl in L1, L2. split; [exact E|].
    unfold len. split; lia.
Qed.

(** C4 (as the code has it).  After the loop [istft] divides the
    accumulated signal by the accumulated window, sample by sample, with
    1 as the divisor wherever the accumulated window is below 1e-6: the
    divisor is never below 1e-6, and a sample below the floor is returned
    as the accumulated sample over 1.  Nothing here makes that sample
    finite.  With a processor of positive sizes, a matrix of
    [window_size] rows and at least one column, and an inverse transform
    that answers on every column, the call does return. *)
Theorem istft_floor
  (ifft : list f64.complex128 -> result (list f64.complex128))
  (p : f64.self) (m : f64.matrix) :
  (forall out, f64.istft ifft p m = Ok out ->
     exists sig ws,
       f64.overlap_add ifft p m = Ok (sig, ws) /\
       length sig = length out /\ length ws = length out /\
       forall n, (n < length out)%nat ->
         let e := nth n ws 0%float in
         let d := if (e <? 1e-6)%float then 1%float else e in
         nth n out nan = (nth n sig 0 / d)%float /\
         (d <? 1e-6)%float = false /\
         ((e <? 1e-6)%float = true -> nth n out nan = (nth n sig 0 / 1)%float)) /\
  ((0 < f64.window_size p)%Z -> (0 < f64.hop_length p)%Z ->
   len (f64.window p) = f64.window_size p ->
   f64.rectangular m -> Z.of_nat (f64.shape0 m) = f64.window_size p ->
   (1 <= f64.shape1 m)%Z ->
   Forall (fun c => exists y, ifft c = Ok y /\ length y = length c) (f64.columns m) ->
   exists out,
     f64.istft ifft p m = Ok out /\
     len out = ((f64.shape1 m - 1) * f64.hop_length p + f64.window_size p)%Z).
Proof.
  assert (Hout : forall sig ws, length sig = length ws ->
            np.broadcast_into div sig (f64.where_lt_set ws 1e-6 1)
            = Ok (np.zip_with div sig (f64.where_lt_set ws 1e-6 1))).
  { intros sig ws Hl. apply broadcast_into_same.
    unfold f64.where_lt_set. rewrite length_map. exact Hl. }
  split.
  - intros out. unfold f64.istft.
    destruct (f64.overlap_add ifft p m) as [[sig ws]|] eqn:E; cbn [bind]; [|discriminate].
    pose proof (f64_overlap_add_lengths _ _ _ _ _ E) as Hl.
    rewrite (Hout sig ws Hl). intros [= <-]. exists sig, ws.
    split; [reflexivity|].
    unfold f64.where_lt_set.
    rewrite zip_with_length, length_map, <- Hl, Nat.min_id.
    split; [reflexivity|]. split; [congruence|].
    intros n Hn. cbv zeta.
    rewrite (zip_with_nth _ _ _ 0%float 1%float) by (rewrite ?length_map; lia).
    rewrite (nth_indep (map _ ws) 1%float
               ((fun x => if (x <? 1e-6)%float then 1%float else x) 0%float))
      by (rewrite length_map; lia).
    rewrite (map_nth (fun x => if (x <? 1e-6)%float then 1%float else x) ws 0%float n).
    destruct (nth n ws 0%float <? 1e-6)%float eqn:Ef.
    + split; [reflexivity|]. split; [reflexivity|]. reflexivity.
    + split; [reflexivity|]. split; [exact Ef|]. discriminate.
  - intros HW HH Hwl Hrect Hrows Hcols Hfft.
    destruct (f64_overlap_add_returns ifft p m HW HH Hwl Hrect Hrows Hcols Hfft)
      as (sig & ws & E & L1 & L2).
    unfold f64.istft. rewrite E. cbn [bind].
    rewrite (Hout sig ws (eq_sym L2)). eexists. split; [reflexivity|].
    unfold len, f64.where_lt_set in *.
    rewrite zip_with_length, length_map, L2, Nat.min_id. exact L1.
Qed.

Lemma istft_floor_witness :
  (exists sig ws,
     f64.overlap_add f64.ifft_4_points f64.hann_4_2 f64.unit_spectrum_4 = Ok (sig, ws) /\
     length sig = 4%nat /\ length ws = 4%nat /\
     forall n, (n < 4)%nat ->
       let e := nth n ws 0%float in
       let d := if (e <? 1e-6)%float then 1%float else e in
       nth n [0; 1; 1; 1]%float nan = (nth n sig 0 / d)%float /\
       (d <? 1e-6)%float = false /\
       ((e <? 1e-6)%float = true
        -> nth n [0; 1; 1; 1]%float nan = (nth n sig 0 / 1)%float)) /\
  exists out,
    f64.istft f64.ifft_4_points f64.hann_4_2 f64.unit_spectrum_4 = Ok out /\
    len out = 4%Z.
Proof.
  split.
  - apply (proj1 (istft_floor f64.ifft_4_points f64.hann_4_2 f64.unit_spectrum_4)
             [0; 1; 1; 1]%float).
    vm_compute. reflexivity.
  - apply (proj2 (istft_floor f64.ifft_4_points f64.hann_4_2 f64.unit_spectrum_4)).
    + reflexivity.
    + reflexivity.
    + reflexivity.
    + repeat constructor.
    + reflexivity.
    + vm_compute. discriminate.
    + repeat constructor. eexists. split; reflexivity.
Defined.

(** C4, refuted as stated: a matrix of four rows whose entries are all
    finite, for which the inverse transform overflows.  Sample 0 of the
    inverse transform is [+inf]; times the window coefficient 0 it is
    NaN; the accumulated window there is 0, below the floor, and [istft]
    returns NaN at that position. *)
Lemma istft_floor_not_finite :
  f64.finite_entries f64.large_spectrum_4 = true /\
  f64.shape0 f64.large_spectrum_4 = 4%nat /\
  exists out sig ws,
    f64.istft f64.ifft_4_points f64.hann_4_2 f64.large_spectrum_4 = Ok out /\
    f64.overlap_add f64.ifft_4_points f64.hann_4_2 f64.large_spectrum_4 = Ok (sig, ws) /\
    (nth 0 ws 0 <? 1e-6)%float = true /\
    is_nan (nth 0 sig 0%float) = true /\
    is_nan (nth 0 out 0%float) = true /\ is_finite (nth 0 out 0%float) = false.
Proof.
  split; [reflexivity|]. split; [reflexivity|].
  do 3 eexists. split; [vm_compute; reflexivity|].
  split; [vm_compute; reflexivity|].
  repeat split; reflexivity.
Qed.

End Binary64.

(** C5. For a processor of positive sizes and a matrix of [window_size]
    rows and [frame_count >= 1] columns, [istft] returns
    [(frame_count - 1) * hop_length + window_size] samples.  Frame [i] is
    the real part of the inverse transform of column [i] times the
    window; the signal buffer is the sum of the frames, each at offset
    [i * hop_length], the window buffer the sum of the window
    coefficients at the same offsets, and the result their quotient. *)
Theorem istft_overlap_add (W H : Z) (t : string) (p : self) (m : np.matrix) :
  __init__ W H t = Ok p -> (0 < W)%Z -> (0 < H)%Z ->
  np.rectangular m -> Z.of_nat (np.shape0 m) = W -> (1 <= np.shape1 m)%Z ->
  let frame i := inverse_frame (window p) (nth i (np.columns m) []) in
  let count := length (np.columns m) in
  exists sig ws out,
    overlap_add p m = Ok (sig, ws) /\
    istft p m = Ok out /\
    len out = ((np.shape1 m - 1) * H + W)%Z /\
    len sig = len out /\ len ws = len out /\
    (forall i, (i < count)%nat ->
       exists col spectrum,
         np.column m i = Ok col /\ np.ifft col = Ok spectrum /\
         np.broadcast Rmult (np.real spectrum) (window p) = Ok (frame i) /\
         forall j, (Z.of_nat j < W)%Z ->
           nth j (frame i) 0 = Re (nth j spectrum C0) * nth j (window p) 0) /\
    (forall n, nth n sig 0 = overlap_sum W H count (fun i j => nth j (frame i) 0) n) /\
    (forall n, nth n ws 0 = overlap_sum W H count (fun _ j => nth j (window p) 0) n) /\
    (forall n, (Z.of_nat n < len out)%Z ->
       nth n out NaN = fdiv (nth n sig 0) (divisor (nth n ws 0))).
Proof.
  intros Hinit HW HH Hr Hrows Hcols frame count.
  destruct (init_ok_inv _ _ _ _ Hinit) as (EW & EH & _ & _ & Hwl & _).
  assert (HW' : (0 < window_size p)%Z) by (rewrite EW; exact HW).
  assert (HH' : (0 < hop_length p)%Z) by (rewrite EH; exact HH).
  assert (Hwl' : len (window p) = window_size p) by (rewrite EW; exact Hwl).
  assert (Hrows' : Z.of_nat (np.shape0 m) = window_size p) by (rewrite EW; exact Hrows).
  destruct (istft_ok p Hwl' HW' HH' m Hr Hrows' Hcols)
    as (sig & ws & out & Eo & E & L1 & L2 & L3 & Hout).
  destruct (overlap_add_ok p Hwl' HW' HH' m Hr Hrows' Hcols)
    as (sig' & ws' & Eo' & _ & _ & Hsig & Hws).
  rewrite Eo in Eo'. injection Eo' as <- <-.
  pose proof (rewindow_ok p Hwl' HW' m Hr Hrows') as Rw.
  pose proof (column_length p HW' m Hr Hrows') as Hcl.
  rewrite EW, EH in *.
  assert (HN : Z.of_nat (Z.to_nat ((np.shape1 m - 1) * H + W))
               = ((np.shape1 m - 1) * H + W)%Z) by nia.
  exists sig, ws, out.
  split; [exact Eo|]. split; [exact E|].
  split; [unfold len; rewrite L3; exact HN|].
  split; [unfold len; congruence|]. split; [unfold len; congruence|].
  split; [|split; [exact Hsig|split; [exact Hws|]]].
  - intros i Hi.
    pose proof (Rw i Hi) as R.
    destruct (np.column m i) as [col|] eqn:Ecol; cbn [bind] in R; [|discriminate].
    destruct (np.ifft col) as [sp|] eqn:Esp; cbn [bind] in R; [|discriminate].
    exists col, sp. split; [reflexivity|]. split; [exact Esp|]. split; [exact R|].
    intros j Hj. fold (frame i) in R.
    assert (Hlen : length (frame i) = length (window p)).
    { unfold frame, inverse_frame. rewrite length_map, length_seq. reflexivity. }
    unfold np.broadcast in R.
    destruct (Nat.eqb_spec (length (np.real sp)) (length (window p))) as [El|El].
    + injection R as R. rewrite <- R.
      rewrite (zip_with_nth _ _ _ 0 0) by (unfold len in Hwl; lia).
      unfold np.real. rewrite (nth_indep _ 0 (Re C0)) by (unfold np.real, len in *; lia).
      rewrite map_nth. reflexivity.
    + exfalso. apply El. unfold np.real. rewrite length_map.
      assert (Hne : col <> []) by (intros ->; discriminate).
      rewrite (ifft_ok col Hne) in Esp. injection Esp as <-.
      rewrite length_map, dft_length.
      pose proof (Hcl i Hi) as Hc.
      unfold np.column in Ecol. unfold len in Hwl.
      destruct (nth_error (np.columns m) i) eqn:En; [|discriminate].
      rewrite (nth_error_nth _ _ [] En) in Hc.
      injection Ecol as ->. simpl in Hc. lia.
  - intros n Hn. apply Hout. unfold len in Hn. lia.
Qed.

Lemma istft_overlap_add_witness :
  exists out, istft hann_4_2 zero_spectrum_4 = Ok out /\ len out = 6%Z.
Proof.
  destruct (istft_overlap_add 4 2 "hann" hann_4_2 zero_spectrum_4)
    as (sig & ws & out & _ & E & L & _).
  - reflexivity.
  - lia.
  - lia.
  - repeat constructor.
  - reflexivity.
  - vm_compute. discriminate.
  - exists out. split; [exact E|exact L].
Defined.

(** C9 (as the code has it).  [istft] has no test of the row count.  For
    a matrix with at least one column whose row count is neither the
    window size nor 1, the first pass through the loop raises a
    [ValueError] (the empty inverse transform, the product of frame and
    window, or the in-place addition of a frame that does not fit),
    while both buffers still hold zeros. *)
Theorem istft_row_mismatch (W H : Z) (t : string) (p : self) (m : np.matrix) :
  __init__ W H t = Ok p -> (0 < H)%Z ->
  np.rectangular m -> np.columns m <> [] ->
  Z.of_nat (np.shape0 m) <> W -> np.shape0 m <> 1%nat ->
  let N := Z.to_nat ((np.shape1 m - 1) * H + W) in
  exists why,
    istft_frame p m 0 (repeat 0 N, repeat 0 N) = Raise (ValueError why) /\
    overlap_add p m = Raise (ValueError why) /\
    istft p m = Raise (ValueError why) /\
    why = (if (np.shape0 m =? 0)%nat then invalid_fft_points
           else if (W =? 1)%Z then output_not_broadcast
           else operands_not_broadcast).
Proof.
  intros Hinit HH Hrect Hcols Hrows Hone N.
  destruct (init_ok_inv _ _ _ _ Hinit) as (EW & EH & _ & HW & Hwl & _).
  destruct m as [rows cols]. simpl in *.
  destruct cols as [|col cols]; [congruence|].
  assert (Hcol : length col = rows) by (inversion Hrect; assumption).
  assert (Hshape : (1 <= np.shape1 (np.mkMatrix rows (col :: cols)))%Z).
  { unfold np.shape1, len. simpl length. lia. }
  set (M := np.mkMatrix rows (col :: cols)) in *.
  assert (Hstep : exists why,
    istft_frame p M 0 (repeat 0 N, repeat 0 N) = Raise (ValueError why) /\
    why = (if (rows =? 0)%nat then invalid_fft_points
           else if (W =? 1)%Z then output_not_broadcast
           else operands_not_broadcast)).
  { unfold istft_frame. cbn [np.column M np.columns nth_error bind].
    destruct (Nat.eqb_spec rows 0) as [E0|E0].
    - destruct col; [|simpl in Hcol; lia]. eexists; split; reflexivity.
    - rewrite ifft_ok by (intros ->; simpl in Hcol; lia). cbn [bind].
      rewrite broadcast_mismatch.
      2:{ unfold np.real. rewrite !length_map, dft_length. lia. }
      2:{ unfold np.real. rewrite !length_map, dft_length. unfold len in Hwl. lia. }
      destruct (Z.eqb_spec W 1) as [E1|E1].
      + destruct (window p) as [|y [|y' wp]] eqn:Ew; unfold len in Hwl; simpl in Hwl; try lia.
        cbn [bind]. rewrite EW, EH, E1. unfold np.iadd_slice.
        set (frame := map _ _).
        assert (Hf : length frame = rows).
        { unfold frame, np.real. rewrite !length_map, dft_length. exact Hcol. }
        assert (Hv : length (np.slice (repeat 0 N) (Z.of_nat 0 * H) (Z.of_nat 0 * H + 1)) = 1%nat).
        { assert (0 <= (np.shape1 M - 1) * H)%Z by nia.
          rewrite slice_inside_length; unfold len; rewrite ?repeat_length; unfold N; lia. }
        destruct (np.slice (repeat 0 N) (Z.of_nat 0 * H) (Z.of_nat 0 * H + 1))
          as [|v [|v' vs]]; simpl in Hv; try lia.
        unfold np.broadcast_into. simpl length.
        destruct (Nat.eqb_spec 1 (length frame)); [lia|].
        destruct frame as [|f [|f' fs]]; simpl in Hf; try lia.
        eexists; split; reflexivity.
      + destruct (window p) as [|y [|y' wp]] eqn:Ew; unfold len in Hwl; simpl in Hwl; try lia;
          eexists; split; reflexivity. }
  destruct Hstep as (why & Estep & Hwhy). exists why.
  assert (Eo : overlap_add p M = Raise (ValueError why)).
  { unfold overlap_add. rewrite EW, EH. unfold np.zeros.
    destruct (Z.ltb_spec ((np.shape1 M - 1) * H + W) 0); [nia|]. cbn [bind].
    apply for_range_raise_first; [unfold np.shape1, len in *; lia|exact Estep]. }
  split; [exact Estep|]. split; [exact Eo|]. split; [|exact Hwhy].
  unfold istft. rewrite Eo. reflexivity.
Qed.

Lemma istft_row_mismatch_witness :
  istft hann_4_2 (np.mkMatrix 3 [[C0; C0; C0]])
  = Raise (ValueError operands_not_broadcast).
Proof.
  destruct (istft_row_mismatch 4 2 "hann" hann_4_2 (np.mkMatrix 3 [[C0; C0; C0]]))
    as (why & _ & _ & E & Hwhy).
  - reflexivity.
  - lia.
  - repeat constructor.
  - discriminate.
  - simpl. lia.
  - simpl. lia.
  - rewrite E, Hwhy. reflexivity.
Defined.

Lemma hann_4_2_eq : hann_4_2 = mkSelf 4 2 "hann" [0; 1 / 2; 1; 1 / 2].
Proof.
  unfold hann_4_2, constructed, __init__, _get_window.
  cbn [supported_windows existsb String.eqb Ascii.eqb Bool.eqb orb negb].
  unfold scipy.get_window. cbn [String.eqb Ascii.eqb Bool.eqb].
  unfold scipy.hann, scipy.general_cosine.
  cbn [Z.ltb Z.leb Z.compare Pos.compare Pos.compare_cont bind Z.to_nat Pos.to_nat
       Pos.iter_op Nat.add seq map length combine fst snd Rsum fold_right INR].
  f_equal. change (Pos.to_nat 4) with 4%nat. cbn [seq map INR].
  rewrite !Rmult_0_l, cos_0.
  replace (1 * (- PI + 2 * PI * 0 / 4)) with (- PI) by field.
  replace (1 * (- PI + 2 * PI * 1 / 4)) with (- (PI / 2)) by field.
  replace (1 * (- PI + 2 * PI * (1 + 1) / 4)) with 0 by field.
  replace (1 * (- PI + 2 * PI * (1 + 1 + 1) / 4)) with (PI / 2) by field.
  rewrite !cos_neg, cos_PI, cos_PI2, cos_0.
  repeat (apply (f_equal2 (@cons R)); [lra|]). reflexivity.
Qed.

(** C9, refuted as stated: a matrix of one row and one column is
    accepted by a processor whose window has four samples; its single
    value is stretched over the window. *)
Lemma fdiv_eq a b c : b <> 0 -> a = c * b -> fdiv a b = Finite c.
Proof. intros Hb ->. rewrite fdiv_finite by exact Hb. f_equal. field. exact Hb. Qed.

Lemma istft_accepts_one_row :
  istft hann_4_2 (np.mkMatrix 1 [[RtoC 1]])
  = Ok [Finite 0; Finite 1; Finite 1; Finite 1].
Proof.
  rewrite hann_4_2_eq. eval_arrays. cbn [INR].
  replace (1 * (2 * PI * 0 * 0 / 1)) with 0 by field.
  rewrite cos_0, sin_0. decide_Rlt.
  f_equal. repeat (apply (f_equal2 (@cons float)); [apply fdiv_eq; lra|]). reflexivity.
Qed.

(* ----------------------------------------------------------------- *)
(** ** The round trip [istft (stft x)] *)

(** A periodic Hann window of more than one sample is the raised cosine. *)
Lemma hann_nth (M : Z) w j :
  (1 < M)%Z -> scipy.hann M = Ok w -> (Z.of_nat j < M)%Z ->
  nth j w 0 = 1 / 2 - 1 / 2 * cos (2 * PI * INR j / IZR M).
Proof.
  intros HM E Hj. unfold scipy.hann, scipy.general_cosine in E.
  destruct (Z.ltb_spec M 0); [lia|]. destruct (Z.leb_spec M 1); [lia|].
  injection E as <-. rewrite nth_map_seq by lia.
  cbn [length seq combine map Rsum fold_right fst snd INR].
  rewrite Rmult_0_l, cos_0.
  replace (1 * (- PI + 2 * PI * INR j / IZR M)) with (2 * PI * INR j / IZR M - PI).
  2:{ field. apply not_0_IZR. lia. }
  rewrite cos_minus, cos_PI, sin_PI. lra.
Qed.

(** When exactly the frames [a, a + c) cover sample [n], the overlap sum
    has just their terms. *)
Lemma overlap_sum_window W H count f n a c :
  (a + c <= count)%nat ->
  (forall i, (i < a)%nat -> covers W H i n = false) ->
  (forall i, (a <= i < a + c)%nat -> covers W H i n = true) ->
  (forall i, (a + c <= i)%nat -> covers W H i n = false) ->
  overlap_sum W H count f n
  = Rsum (map (fun i => f i (Z.to_nat (Z.of_nat n - Z.of_nat i * H))) (seq a c)).
Proof.
  intros Hc Hlo Hin Hhi. unfold overlap_sum.
  replace count with (a + (c + (count - (a + c))))%nat by lia.
  rewrite !seq_app, !map_app, !Rsum_app. cbn [Nat.add].
  rewrite (Rsum_map_ext _ (fun _ => 0)), Rsum_map_zero.
  2:{ intros i Hi. apply in_seq in Hi. rewrite Hlo by lia. reflexivity. }
  rewrite (Rsum_map_ext _ (fun _ => 0) (seq (a + c) _)), Rsum_map_zero.
  2:{ intros i Hi. apply in_seq in Hi. rewrite Hhi by lia. reflexivity. }
  rewrite (Rsum_map_ext _ (fun i => f i (Z.to_nat (Z.of_nat n - Z.of_nat i * H)))).
  2:{ intros i Hi. apply in_seq in Hi. rewrite Hin by lia. reflexivity. }
  lra.
Qed.

Lemma init_hann W H p :
  __init__ W H "hann" = Ok p ->
  window_size p = W /\ hop_length p = H /\ scipy.hann W = Ok (window p).
Proof.
  unfold __init__, _get_window. cbn [supported_windows existsb String.eqb Ascii.eqb Bool.eqb orb negb].
  unfold scipy.get_window. cbn [String.eqb Ascii.eqb Bool.eqb].
  destruct (scipy.hann W) as [w|e]; cbn [bind]; [|discriminate].
  intros [= <-]. auto.
Qed.

Lemma covers_inside W H i n :
  (0 <= H)%Z -> covers W H i n = true ->
  (Z.of_nat i * H <= Z.of_nat n < Z.of_nat i * H + W)%Z.
Proof.
  unfold covers. intros _ E. apply andb_prop in E as [E1 E2].
  apply Z.leb_le in E1. apply Z.ltb_lt in E2. lia.
Qed.

Section RoundTrip.
Variable p : self.
Let W := window_size p.
Let H := hop_length p.
Hypothesis window_len : len (window p) = W.
Hypothesis W_pos : (0 < W)%Z.
Hypothesis H_pos : (0 < H)%Z.

Variable x : list R.
Hypothesis long_enough : (W <= len x)%Z.

Let fc := frame_count (len x) W H.
Let w := window p.

(** What the round trip returns: sample [n] of the signal, times the
    overlap-added squared window, over the overlap-added window. *)
Theorem istft_stft :
  exists m out,
    stft p x = Ok m /\ istft p m = Ok out /\
    len out = ((fc - 1) * H + W)%Z /\
    forall n, (n < length out)%nat ->
      nth n out NaN =
      Finite (nth n x 0
              * overlap_sum W H (Z.to_nat fc) (fun _ j => nth j w 0 * nth j w 0) n
              / divisor (overlap_sum W H (Z.to_nat fc) (fun _ j => nth j w 0) n)).
Proof.
  destruct (stft_columns p window_len W_pos H_pos x long_enough)
    as (m & Em & Hs & Hc & Hr & Hcols).
  fold W H fc in Hs, Hc, Hcols.
  pose proof (frame_count_pos p H_pos x long_enough) as Hfc. fold W H fc in Hfc.
  assert (Hrows : Z.of_nat (np.shape0 m) = window_size p) by (fold W; lia).
  assert (Hcols1 : (1 <= np.shape1 m)%Z) by lia.
  destruct (istft_ok p window_len W_pos H_pos m Hr Hrows Hcols1)
    as (sig & ws & out & Eo & Ei & L1 & L2 & L3 & Hout).
  fold W H in L1, L2, L3, Hout.
  destruct (overlap_add_ok p window_len W_pos H_pos m Hr Hrows Hcols1)
    as (sig' & ws' & Eo' & _ & _ & Hsig & Hws).
  fold W H in Hsig, Hws.
  rewrite Eo in Eo'. injection Eo' as <- <-.
  assert (Hlc : length (np.columns m) = Z.to_nat fc).
  { unfold np.shape1, len in Hc. lia. }
  rewrite Hlc in Hsig, Hws.
  exists m, out. split; [exact Em|]. split; [exact Ei|].
  split; [unfold len; rewrite L3, Hc; nia|].
  intros n Hn. rewrite L3 in Hn.
  destruct (Hout n Hn) as [_ ->]. f_equal. f_equal; [|rewrite Hws; reflexivity].
  rewrite Hsig. unfold overlap_sum. rewrite <- Rsum_map_scal.
  apply Rsum_map_ext. intros i Hi. apply in_seq in Hi.
  destruct (covers W H i n) eqn:Ecov; [|ring].
  apply covers_inside in Ecov; [|lia].
  set (j := Z.to_nat (Z.of_nat n - Z.of_nat i * H)).
  assert (Hj : (j < length w)%nat) by (unfold w, len in *; lia).
  unfold inverse_frame. fold w. rewrite nth_map_seq by exact Hj.
  rewrite (nth_error_nth _ _ [] (Hcols i ltac:(lia))).
  rewrite real_ifft_fft
    by (unfold windowed_frame; rewrite length_map, length_seq; exact Hj).
  unfold windowed_frame. fold w. rewrite nth_map_seq by exact Hj.
  replace (Z.to_nat (Z.of_nat i * H) + j)%nat with n by lia. ring.
Qed.
End RoundTrip.

Section Hann_200_50.
Variable p : self.
Hypothesis p_init : __init__ 200 50 "hann" = Ok p.
Variable x : list R.
Hypothesis x_len : length x = 1000%nat.

Let w := window p.

Lemma hann_200_nth j :
  (j < 200)%nat -> nth j w 0 = 1 / 2 - 1 / 2 * cos (2 * PI * INR j / 200).
Proof.
  intros Hj. destruct (init_hann _ _ _ p_init) as (_ & _ & E).
  apply (hann_nth 200); [lia|exact E|lia].
Qed.

(** Four quarter-period shifts of the window add up to 2, their squares
    to 3/2. *)
Lemma hann_200_overlap r :
  (r < 50)%nat ->
  nth (r + 150) w 0 + (nth (r + 100) w 0 + (nth (r + 50) w 0 + (nth r w 0 + 0))) = 2 /\
  nth (r + 150) w 0 * nth (r + 150) w 0
  + (nth (r + 100) w 0 * nth (r + 100) w 0
     + (nth (r + 50) w 0 * nth (r + 50) w 0 + (nth r w 0 * nth r w 0 + 0))) = 3 / 2.
Proof.
  intros Hr. rewrite !hann_200_nth by lia.
  set (th := 2 * PI * INR r / 200).
  replace (2 * PI * INR (r + 150) / 200) with (th + 3 * (PI / 2))
    by (unfold th; rewrite plus_INR; simpl INR; field).
  replace (2 * PI * INR (r + 100) / 200) with (th + PI)
    by (unfold th; rewrite plus_INR; simpl INR; field).
  replace (2 * PI * INR (r + 50) / 200) with (th + PI / 2)
    by (unfold th; rewrite plus_INR; simpl INR; field).
  rewrite neg_cos, !cos_plus, cos_3PI2, sin_3PI2, cos_PI2, sin_PI2.
  pose proof (sin2_cos2 th) as T. unfold Rsqr in T.
  split; nra.
Qed.

Lemma divisor_2 : divisor 2 = 2.
Proof. unfold divisor. destruct (Rlt_dec 2 1e-6); lra. Qed.

(** C1, as the code has it.  With [window_size=200], [hop_length=50] and
    the Hann window (whose four overlapping copies add up to the constant
    2), the round trip of any signal of 1000 samples returns 1000 samples,
    and every sample from 150 up to 849 comes back multiplied by 3/4: the
    frames are windowed twice, so the signal buffer carries the squared
    window (sum 3/2), while the divisor is the sum of the window itself
    (2).  On the interior samples [200, 800] the mean squared error is a
    sixteenth of the mean square of the signal, not below [1e-9 * 1e-9]. *)
Theorem roundtrip_hann_200_50 :
  exists m out,
    stft p x = Ok m /\ istft p m = Ok out /\ length out = 1000%nat /\
    (forall n, (150 <= n < 850)%nat -> nth n out NaN = Finite (3 / 4 * nth n x 0)) /\
    mean_squared_error x out 200 601
    = 1 / 16 * (Rsum (map (fun n => nth n x 0 * nth n x 0) (seq 200 601)) / 601).
Proof.
  destruct (init_ok_inv _ _ _ _ p_init) as (EW & EH & _ & _ & Hwl & _).
  assert (Hlen : len x = 1000%Z) by (unfold len; rewrite x_len; reflexivity).
  destruct (istft_stft p) with (x := x) as (m & out & Em & Eo & L & Hout).
  - rewrite EW; exact Hwl.
  - rewrite EW; lia.
  - rewrite EH; lia.
  - rewrite EW, Hlen; lia.
  - rewrite EW, EH, Hlen in L, Hout. fold w in Hout.
    change (frame_count 1000 200 50) with 17%Z in L, Hout.
    exists m, out. split; [exact Em|]. split; [exact Eo|].
    assert (L' : length out = 1000%nat) by (unfold len in L; lia).
    split; [exact L'|].
    assert (Hsample : forall n, (150 <= n < 850)%nat ->
                        nth n out NaN = Finite (3 / 4 * nth n x 0)).
    { intros n Hn. rewrite Hout by lia.
      pose proof (Nat.div_mod_eq n 50) as Hq.
      pose proof (Nat.mod_upper_bound n 50 ltac:(lia)) as Hr.
      set (q := (n / 50)%nat) in *. set (r := (n mod 50)%nat) in *.
      assert (Hsplit : forall f,
        overlap_sum 200 50 (Z.to_nat 17) (fun _ => f) n
        = f (r + 150)%nat + (f (r + 100)%nat + (f (r + 50)%nat + (f r + 0)))).
      { intros f.
        rewrite (overlap_sum_window 200 50 (Z.to_nat 17) (fun _ => f) n (q - 3) 4).
        - cbn [seq map Rsum fold_right].
          repeat match goal with
                 | |- context [f (Z.to_nat ?z)] =>
                     let k := fresh "k" in
                     set (k := Z.to_nat z)
                 end.
          repeat f_equal; lia.
        - lia.
        - intros i Hi. unfold covers. apply andb_false_intro2. apply Z.ltb_ge. lia.
        - intros i Hi. unfold covers. apply andb_true_intro. split;
            [apply Z.leb_le|apply Z.ltb_lt]; lia.
        - intros i Hi. unfold covers. apply andb_false_intro1. apply Z.leb_gt. lia. }
      rewrite (Hsplit (fun j => nth j w 0 * nth j w 0)), (Hsplit (fun j => nth j w 0)).
      destruct (hann_200_overlap r Hr) as [-> ->].
      rewrite divisor_2. f_equal. field. }
    split; [exact Hsample|].
    unfold mean_squared_error.
    rewrite (Rsum_map_ext _ (fun n => 1 / 16 * (nth n x 0 * nth n x 0))).
    + rewrite Rsum_map_scal. change (INR 601) with (INR (Z.to_nat 601)).
      rewrite INR_IZR_INZ, Z2Nat.id by lia. field.
    + intros n Hn. apply in_seq in Hn. rewrite Hsample by lia. cbn [value]. field.
Qed.
End Hann_200_50.

Lemma roundtrip_hann_200_50_witness :
  exists m out,
    stft hann_200_50 ones_1000 = Ok m /\ istft hann_200_50 m = Ok out /\
    length out = 1000%nat /\
    nth 500 out NaN = Finite (3 / 4 * nth 500 ones_1000 0) /\
    mean_squared_error ones_1000 out 200 601 = 1 / 16 /\
    ~ mean_squared_error ones_1000 out 200 601 < 1e-9 * 1e-9.
Proof.
  destruct (roundtrip_hann_200_50 hann_200_50 eq_refl ones_1000 eq_refl)
    as (m & out & Em & Eo & L & Hn & Hmse).
  exists m, out. split; [exact Em|]. split; [exact Eo|]. split; [exact L|].
  split; [apply Hn; lia|].
  assert (E : mean_squared_error ones_1000 out 200 601 = 1 / 16).
  { rewrite Hmse. rewrite (Rsum_map_ext _ (fun _ => 1)).
    - rewrite Rsum_map_const, length_seq. change (INR 601) with (INR (Z.to_nat 601)).
      rewrite INR_IZR_INZ, Z2Nat.id by lia. field.
    - intros n Hin. apply in_seq in Hin. unfold ones_1000.
      rewrite nth_repeat_lt by lia. ring. }
  split; [exact E|]. rewrite E. lra.
Defined.

(** The same fault by hand: four-sample Hann window [0, 1/2, 1, 1/2], hop
    2, eight samples of 1.  Sample 3 lies under frames 0 and 1, at window
    positions 3 and 1: the signal buffer holds 1/4 + 1/4, the window
    buffer 1/2 + 1/2, and the sample comes back as 1/2. *)
Example roundtrip_hann_4_2_sample_3 :
  exists m out,
    stft hann_4_2 ones_8 = Ok m /\ istft hann_4_2 m = Ok out /\
    length out = 8%nat /\
    nth 3 ones_8 0 = 1 /\ nth 3 out NaN = Finite (1 / 2).
Proof.
  rewrite hann_4_2_eq.
  destruct (istft_stft (mkSelf 4 2 "hann" [0; 1 / 2; 1; 1 / 2])) with (x := ones_8)
    as (m & out & Em & Eo & L & Hout);
    try (vm_compute; congruence).
  exists m, out. split; [exact Em|]. split; [exact Eo|].
  assert (L' : length out = 8%nat).
  { match type of L with
    | _ = ?r => let v := eval vm_compute in r in change r with v in L
    end.
    unfold len in L. lia. }
  split; [exact L'|]. split; [reflexivity|].
  rewrite Hout by lia. f_equal. eval_arrays. decide_Rlt.
Qed.

(* ----------------------------------------------------------------- *)
(** ** The fidelity metric *)

Lemma compute_snr_unfold (o r : list R) :
  let k := Nat.min (length o) (length r) in
  compute_snr o r
  = Ok (fscale 10 (log10 (fdiv (signal_energy o k) (noise_energy o r k)))).
Proof.
  intros k. unfold compute_snr.
  replace (Z.min (len o) (len r)) with (Z.of_nat k) by (unfold len, k; lia).
  rewrite !slice_prefix by (unfold k; lia).
  rewrite broadcast_same by (rewrite !length_firstn; unfold k; lia).
  cbn [bind]. do 4 f_equal.
  - unfold np.sum, np.square, signal_energy.
    rewrite (firstn_as_map o k) by (unfold k; lia). rewrite map_map. reflexivity.
  - unfold np.sum, np.square, noise_energy.
    rewrite (firstn_as_map o k), (firstn_as_map r k) by (unfold k; lia).
    rewrite zip_with_maps, map_map. reflexivity.
Qed.

(** C6. [compute_snr] cuts both signals to the shorter length, takes
    their difference as the noise and returns
    [10 * log10 (sum (original^2) / sum (noise^2))], without an exception.
    With a noise energy of exactly zero the value returned is not finite
    (plus infinity, or NaN when the signal energy is zero too). *)
Theorem compute_snr_value (o r : list R) :
  let k := Nat.min (length o) (length r) in
  let S := signal_energy o k in
  let N := noise_energy o r k in
  compute_snr o r = Ok (fscale 10 (log10 (fdiv S N))) /\
  (N = 0 ->
   exists v, compute_snr o r = Ok v /\ is_finite v = false /\
             (0 < S -> v = PosInf) /\ (S = 0 -> v = NaN)) /\
  (0 < N -> 0 < S ->
   compute_snr o r = Ok (Finite (10 * (ln (S / N) / ln 10)))).
Proof.
  intros k S N. pose proof (compute_snr_unfold o r) as E. fold k S N in E.
  cbv zeta in E. fold k in E. fold S N in E.
  split; [exact E|]. split.
  - intros HN. rewrite E, HN. unfold fdiv.
    destruct (Req_dec_T 0 0) as [_|F]; [|contradiction].
    assert (HS : 0 <= S) by apply Rsum_squares_nonneg.
    destruct (Rlt_dec 0 S) as [Hpos|Hnpos].
    + exists PosInf. cbn [log10 fscale]. destruct (Rlt_dec 0 10); [|lra].
      repeat split; auto. intros; lra.
    + destruct (Rlt_dec S 0); [lra|]. exists NaN. cbn [log10 fscale].
      repeat split; auto. intros; lra.
  - intros HN HS. rewrite E. rewrite fdiv_finite by lra. cbn [log10].
    assert (0 < S / N) by (apply Rdiv_lt_0_compat; assumption).
    destruct (Rlt_dec 0 (S / N)); [|contradiction]. reflexivity.
Qed.

Lemma compute_snr_value_witness :
  compute_snr [1; 2] [1; 2; 3] = Ok PosInf /\
  compute_snr [3; 0] [0; 0] = Ok (Finite (10 * (ln ((3 * 3 + (0 * 0 + 0)) / ((3 - 0) * (3 - 0) + ((0 - 0) * (0 - 0) + 0))) / ln 10))).
Proof.
  split.
  - destruct (compute_snr_value [1; 2] [1; 2; 3]) as (_ & H0 & _).
    destruct H0 as (v & E & _ & Hv & _).
    + unfold noise_energy. simpl. lra.
    + rewrite E. f_equal. apply Hv. unfold signal_energy. simpl. lra.
  - apply (compute_snr_value [3; 0] [0; 0]).
    + unfold noise_energy. simpl. lra.
    + unfold signal_energy. simpl. lra.
Defined.

(* ================================================================= *)
(** * Further properties of the code *)

(* ----------------------------------------------------------------- *)
(** ** More on the round trip *)

(** X1. The round trip, in closed form.  For a processor of positive
    sizes and a signal at least as long as the window, [istft (stft x)]
    returns the signal without its last [(L - W) mod H] samples, each
    sample multiplied by the overlap-added squared window and divided by
    the overlap-added window (or by 1 where that is below 1e-6). *)
Theorem roundtrip_closed_form (W H : Z) (t : string) (p : self) (x : list R) :
  __init__ W H t = Ok p -> (0 < W)%Z -> (0 < H)%Z -> (W <= len x)%Z ->
  let count := Z.to_nat (frame_count (len x) W H) in
  let w j := nth j (window p) 0 in
  exists m out,
    stft p x = Ok m /\ istft p m = Ok out /\
    len out = (len x - (len x - W) mod H)%Z /\
    forall n, (n < length out)%nat ->
      nth n out NaN
      = Finite (nth n x 0
                * overlap_sum W H count (fun _ j => w j * w j) n
                / divisor (overlap_sum W H count (fun _ j => w j) n)).
Proof.
  intros Hinit HW HH HL count w.
  destruct (init_ok_inv _ _ _ _ Hinit) as (EW & EH & _ & _ & Hwl & _).
  destruct (istft_stft p) with (x := x) as (m & out & Em & Eo & L & Hout);
    try (rewrite ?EW, ?EH; assumption).
  rewrite EW, EH in L, Hout.
  exists m, out. split; [exact Em|]. split; [exact Eo|]. split; [|exact Hout].
  rewrite L. unfold frame_count.
  pose proof (Z.div_mod (len x - W) H ltac:(lia)). lia.
Qed.

Lemma roundtrip_closed_form_witness :
  exists m out,
    stft hann_4_2 [1; 2; 3; 4; 5; 6; 7] = Ok m /\ istft hann_4_2 m = Ok out /\
    len out = 6%Z.
Proof.
  destruct (roundtrip_closed_form 4 2 "hann" hann_4_2 [1; 2; 3; 4; 5; 6; 7])
    as (m & out & Em & Eo & L & _).
  - reflexivity.
  - lia.
  - lia.
  - vm_compute. discriminate.
  - exists m, out. split; [exact Em|]. split; [exact Eo|exact L].
Defined.

(** [istft] of a matrix without columns. *)
Lemma istft_no_columns p rows :
  istft p (np.mkMatrix rows [])
  = if (window_size p - hop_length p <? 0)%Z
    then Raise (ValueError negative_dimensions)
    else Ok (repeat (Finite 0) (Z.to_nat (window_size p - hop_length p))).
Proof.
  unfold istft, overlap_add, np.shape1, len. cbn [np.columns length Z.of_nat].
  replace ((0 - 1) * hop_length p + window_size p)%Z
    with (window_size p - hop_length p)%Z by ring.
  unfold np.zeros. destruct (window_size p - hop_length p <? 0)%Z; [reflexivity|].
  cbn [bind Z.to_nat for_range].
  set (k := Z.to_nat (window_size p - hop_length p)).
  unfold np.where_lt_set. rewrite map_repeat.
  destruct (Rlt_dec 0 1e-6) as [_|F]; [|exfalso; apply F; lra].
  rewrite broadcast_into_same by (rewrite !repeat_length; reflexivity).
  f_equal. induction k as [|k IH]; [reflexivity|].
  cbn [repeat np.zip_with]. rewrite IH. f_equal. apply fdiv_eq; lra.
Qed.

(** X4. A signal shorter than the window by at most one hop is not
    refused by the round trip: [stft] returns a matrix without columns,
    and [istft] turns it into [window_size - hop_length] zeros (or raises
    the [ValueError] of [np.zeros] when the hop exceeds the window). *)
Theorem roundtrip_short_signal (p : self) (x : list R) :
  (0 < hop_length p)%Z -> (len x < window_size p)%Z ->
  (window_size p - len x <= hop_length p)%Z ->
  exists m,
    stft p x = Ok m /\ np.columns m = [] /\
    istft p m
    = if (window_size p <? hop_length p)%Z
      then Raise (ValueError negative_dimensions)
      else Ok (repeat (Finite 0) (Z.to_nat (window_size p - hop_length p))).
Proof.
  intros HH HL Hshort. eexists. split; [|split].
  - unfold stft, floordiv.
    destruct (Z.eqb_spec (hop_length p) 0); [lia|]. cbn [bind].
    assert (0 <= len x)%Z by (unfold len; lia).
    assert (Eq : ((len x - window_size p) / hop_length p = -1)%Z).
    { symmetry. apply (Z.div_unique _ _ _ (len x - window_size p + hop_length p)); lia. }
    rewrite Eq. unfold np.zeros2.
    destruct (Z.ltb_spec (window_size p) 0); [lia|]. reflexivity.
  - reflexivity.
  - rewrite istft_no_columns.
    destruct (Z.ltb_spec (window_size p - hop_length p) 0);
      destruct (Z.ltb_spec (window_size p) (hop_length p)); try lia; reflexivity.
Qed.

Lemma roundtrip_short_signal_witness :
  exists m,
    stft hann_4_2 [1; 1; 1] = Ok m /\ np.columns m = [] /\
    istft hann_4_2 m = Ok [Finite 0; Finite 0].
Proof.
  apply (roundtrip_short_signal hann_4_2 [1; 1; 1]).
  - reflexivity.
  - reflexivity.
  - vm_compute. discriminate.
Defined.

(* ----------------------------------------------------------------- *)
(** ** FFTAnalyzer *)

Lemma real_list_ext (a b : list R) :
  length a = length b ->
  (forall i, (i < length a)%nat -> nth i a 0 = nth i b 0) -> a = b.
Proof. intros Hl Hn. apply (nth_ext _ _ 0 0); assumption. Qed.

(** X7. [perform_ifft(np.fft.fft(signal))] gives the signal back, for
    every signal that is not empty (the round trip the test suite checks
    to 1e-10). *)
Theorem perform_ifft_fft (signal : list R) :
  signal <> [] ->
  exists fft_result,
    np.fft (np.as_complex signal) = Ok fft_result /\
    FFTAnalyzer.perform_ifft fft_result = Ok signal.
Proof.
  intros Hne.
  assert (Hc : np.as_complex signal <> []).
  { destruct signal; [congruence|discriminate]. }
  exists (np.dft (-1) (np.as_complex signal)). split; [apply fft_ok; exact Hc|].
  unfold FFTAnalyzer.perform_ifft.
  assert (Hl : length (np.dft (-1) (np.as_complex signal)) = length signal).
  { rewrite dft_length. apply length_map. }
  rewrite ifft_ok.
  2:{ intros E. rewrite E in Hl. destruct signal; [congruence|discriminate]. }
  cbn [bind]. f_equal. unfold np.real. apply real_list_ext.
  - rewrite !length_map, dft_length. exact Hl.
  - intros i Hi. rewrite !length_map, dft_length, Hl in Hi.
    rewrite (nth_indep _ 0 (Re C0)) by (rewrite !length_map, dft_length; lia).
    rewrite map_nth.
    rewrite (nth_indep _ C0 (Cscale (/ INR (length (np.dft (-1) (np.as_complex signal)))) C0))
      by (rewrite length_map, dft_length; lia).
    rewrite map_nth. apply real_ifft_fft. exact Hi.
Qed.

Lemma perform_ifft_fft_witness :
  exists fft_result,
    np.fft (np.as_complex ramp_8) = Ok fft_result /\
    FFTAnalyzer.perform_ifft fft_result = Ok ramp_8.
Proof. apply (perform_ifft_fft ramp_8). discriminate. Defined.

Lemma compress_app {A} (m1 m2 : list bool) (a1 a2 : list A) :
  length m1 = length a1 ->
  npx.compress (m1 ++ m2) (a1 ++ a2) = npx.compress m1 a1 ++ npx.compress m2 a2.
Proof.
  revert a1; induction m1 as [|b m1 IH]; intros [|x a1] Hl; simpl in *; try discriminate.
  - reflexivity.
  - injection Hl as Hl. rewrite (IH a1 Hl). destruct b; reflexivity.
Qed.

Lemma compress_true {A} (m : list bool) (a : list A) :
  length m = length a -> Forall (fun b => b = true) m -> npx.compress m a = a.
Proof.
  intros Hl Hm. revert a Hl. induction Hm as [|b m -> _ IH]; intros [|x a] Hl;
    simpl in *; try discriminate; try reflexivity.
  injection Hl as Hl. rewrite (IH a Hl). reflexivity.
Qed.

Lemma compress_false {A} (m : list bool) (a : list A) :
  Forall (fun b => b = false) m -> npx.compress m a = [].
Proof.
  intros Hm. revert a. induction Hm as [|b m -> _ IH]; intros [|x a]; simpl; auto.
Qed.

Section PerformFFT.
Variable signal : list R.
Variable sampling_rate : Z.
Hypothesis not_empty : signal <> [].
Hypothesis rate_pos : (0 < sampling_rate)%Z.

Let n := length signal.
Let half := ((n + 1) / 2)%nat.

Lemma n_pos : (0 < n)%nat.
Proof. unfold n. destruct signal; [congruence|simpl; lia]. Qed.

Lemma bins_split :
  Z.to_nat ((Z.of_nat n - 1) / 2 + 1) = half /\
  Z.to_nat (Z.of_nat n / 2) = (n - half)%nat /\ (half <= n)%nat /\ (0 < half)%nat.
Proof.
  pose proof n_pos. unfold half.
  pose proof (Nat.div_mod_eq (n + 1) 2). pose proof (Nat.mod_upper_bound (n + 1) 2).
  pose proof (Z.div_mod (Z.of_nat n - 1) 2). pose proof (Z.mod_pos_bound (Z.of_nat n - 1) 2).
  pose proof (Z.div_mod (Z.of_nat n) 2). pose proof (Z.mod_pos_bound (Z.of_nat n) 2).
  lia.
Qed.

(** What [perform_fft] returns. *)
Lemma perform_fft_ok :
  FFTAnalyzer.perform_fft signal sampling_rate
  = Ok (map (fun k => INR k * (IZR sampling_rate / INR n)) (seq 0 half),
        firstn half (map (fun z => Cabs z / INR n * 2)
                         (np.dft (-1) (np.as_complex signal)))).
Proof.
  pose proof n_pos as Hn. destruct bins_split as (EN & EM & Hh & Hh0).
  assert (HnR : 0 < INR n) by (apply lt_0_INR; exact Hn).
  assert (HsR : 0 < IZR sampling_rate) by (apply IZR_lt; exact rate_pos).
  unfold FFTAnalyzer.perform_fft. fold n.
  rewrite fft_ok by (destruct signal; [congruence|discriminate]). cbn [bind].
  unfold truediv. destruct (Z.eqb_spec sampling_rate 0); [lia|]. cbn [bind].
  unfold npx.fftfreq.
  assert (Hd : INR n * (1 / IZR sampling_rate) <> 0).
  { apply Rgt_not_eq. apply Rmult_lt_0_compat; [lra|].
    apply Rdiv_lt_0_compat; lra. }
  destruct (Req_dec_T (INR n * (1 / IZR sampling_rate)) 0); [contradiction|]. cbn [bind].
  assert (Hval : 1 / (INR n * (1 / IZR sampling_rate)) = IZR sampling_rate / INR n)
    by (field; split; lra).
  rewrite Hval. set (val := IZR sampling_rate / INR n).
  assert (Hvalpos : 0 < val) by (apply Rdiv_lt_0_compat; lra).
  unfold npx.fftfreq_bins. rewrite EN, EM.
  rewrite map_app, !map_map.
  set (mag := map (fun a => a / INR n * 2) (npx.abs (np.dft (-1) (np.as_complex signal)))).
  assert (Hmag : length mag = n).
  { unfold mag, npx.abs. rewrite !length_map, dft_length. apply length_map. }
  unfold npx.ge_mask. rewrite map_app.
  rewrite <- (firstn_skipn half mag) at 1.
  rewrite !compress_app
    by (rewrite ?length_firstn, !length_map, ?length_seq; lia).
  rewrite (compress_false (map _ (map _ (seq 0 (n - half))))),
          (compress_false (map _ (map _ (seq 0 (n - half))))).
  2,3: apply Forall_forall; intros b Hb;
       apply in_map_iff in Hb as (v & <- & Hv);
       apply in_map_iff in Hv as (i & <- & Hi); apply in_seq in Hi;
       (assert (IZR (Z.of_nat i - Z.of_nat n / 2) < 0)
          by (apply IZR_lt; pose proof (Z2Nat.id (Z.of_nat n / 2)); lia));
       (destruct (Rle_dec 0 (IZR (Z.of_nat i - Z.of_nat n / 2) * val)); [nra|reflexivity]).
  rewrite !app_nil_r.
  assert (Htrue : Forall (fun b => b = true)
            (map (fun x => if Rle_dec 0 x then true else false)
                 (map (fun x => IZR (Z.of_nat x) * val) (seq 0 half)))).
  { apply Forall_forall; intros b Hb.
    apply in_map_iff in Hb as (v & <- & Hv).
    apply in_map_iff in Hv as (i & <- & Hi).
    assert (0 <= IZR (Z.of_nat i)) by (apply IZR_le; lia).
    destruct (Rle_dec 0 (IZR (Z.of_nat i) * val)); [reflexivity|nra]. }
  rewrite !compress_true
    by (exact Htrue || (rewrite ?length_firstn, !length_map, ?length_seq; lia)).
  f_equal. f_equal.
  - apply map_ext. intros i. rewrite <- INR_IZR_INZ. reflexivity.
  - unfold mag, npx.abs. rewrite map_map. reflexivity.
Qed.
End PerformFFT.

Lemma Rsum_nth_seq (v : list R) :
  Rsum (map (fun m => nth m v 0) (seq 0 (length v))) = Rsum v.
Proof. rewrite <- firstn_as_map by lia. rewrite firstn_all. reflexivity. Qed.

Lemma Cabs_real_part (z : complex) : Im z = 0 -> Cabs z = Rabs (Re z).
Proof.
  intros E. unfold Cabs. rewrite E, Rmult_0_l, Rplus_0_r.
  apply sqrt_Rsqr_abs.
Qed.

Lemma Cabs_imaginary_part (z : complex) : Re z = 0 -> Cabs z = Rabs (Im z).
Proof.
  intros E. unfold Cabs. rewrite E, Rmult_0_l, Rplus_0_l.
  apply sqrt_Rsqr_abs.
Qed.

(** X8. For a signal of [n >= 1] samples and a positive sampling rate,
    [perform_fft] returns the [ceil(n / 2)] bins [k = 0, 1, ...] with
    frequency [k * sampling_rate / n], all strictly below half the
    sampling rate (the Nyquist bin of an even [n] is labelled negative by
    [fftfreq] and dropped), and magnitude [2 * |X_k| / n]. *)
Theorem perform_fft_bins (signal : list R) (sampling_rate : Z) :
  signal <> [] -> (0 < sampling_rate)%Z ->
  let n := length signal in
  let spectrum := np.dft (-1) (np.as_complex signal) in
  exists freq magnitude,
    FFTAnalyzer.perform_fft signal sampling_rate = Ok (freq, magnitude) /\
    length freq = ((n + 1) / 2)%nat /\ length magnitude = ((n + 1) / 2)%nat /\
    forall k, (k < (n + 1) / 2)%nat ->
      nth k freq 0 = INR k * IZR sampling_rate / INR n /\
      2 * nth k freq 0 < IZR sampling_rate /\
      nth k magnitude 0 = Cabs (nth k spectrum C0) / INR n * 2.
Proof.
  intros Hne Hsr n spectrum.
  destruct (bins_split signal Hne) as (_ & _ & Hh & Hh0). fold n in Hh, Hh0.
  assert (Hn : (0 < n)%nat) by (apply n_pos; exact Hne).
  assert (HnR : 0 < INR n) by (apply lt_0_INR; exact Hn).
  assert (Hl : length spectrum = n).
  { unfold spectrum. rewrite dft_length. apply length_map. }
  eexists _, _. split; [apply perform_fft_ok; assumption|]. fold n.
  split; [rewrite length_map, length_seq; reflexivity|].
  split; [rewrite length_firstn, length_map; fold spectrum; lia|].
  intros k Hk. rewrite nth_map_seq by exact Hk.
  split; [unfold Rdiv; ring|]. split.
  - assert (Hkn : 2 * INR k < INR n).
    { replace 2 with (INR 2) by reflexivity. rewrite <- mult_INR. apply lt_INR.
      pose proof (Nat.div_mod_eq (n + 1) 2).
      pose proof (Nat.mod_upper_bound (n + 1) 2). lia. }
    assert (0 < IZR sampling_rate) by (apply IZR_lt; exact Hsr).
    replace (2 * (INR k * (IZR sampling_rate / INR n)))
      with (IZR sampling_rate * (2 * INR k / INR n)) by (field; lra).
    assert (2 * INR k / INR n < 1).
    { apply (Rmult_lt_reg_r (INR n)); [lra|]. unfold Rdiv.
      rewrite Rmult_assoc, Rinv_l by lra. lra. }
    nra.
  - rewrite nth_firstn. destruct (Nat.ltb_spec k ((n + 1) / 2)); [|lia].
    fold spectrum.
    rewrite (nth_indep _ 0 ((fun z => Cabs z / INR n * 2) C0))
      by (rewrite length_map; lia).
    rewrite (map_nth (fun z => Cabs z / INR n * 2)). reflexivity.
Qed.

Lemma perform_fft_bins_witness :
  exists freq magnitude,
    FFTAnalyzer.perform_fft ramp_8 1000 = Ok (freq, magnitude) /\
    length freq = 4%nat /\ nth 3 freq 0 = 3 * 1000 / 8.
Proof.
  destruct (perform_fft_bins ramp_8 1000) as (freq & mag & E & L & _ & Hk).
  - discriminate.
  - lia.
  - exists freq, mag. split; [exact E|]. split; [exact L|].
    destruct (Hk 3%nat) as (E3 & _); [simpl; lia|].
    rewrite E3. simpl. lra.
Defined.

(** X9. The bin at 0 Hz is doubled like every other bin: its magnitude
    is twice the absolute value of the mean of the signal. *)
Theorem perform_fft_dc_bin (signal : list R) (sampling_rate : Z) :
  signal <> [] -> (0 < sampling_rate)%Z ->
  exists freq magnitude,
    FFTAnalyzer.perform_fft signal sampling_rate = Ok (freq, magnitude) /\
    nth 0 freq 1 = 0 /\
    nth 0 magnitude 0 = 2 * Rabs (Rsum signal / INR (length signal)).
Proof.
  intros Hne Hsr.
  destruct (bins_split signal Hne) as (_ & _ & Hh & Hh0).
  assert (Hn : (0 < length signal)%nat) by (apply n_pos; exact Hne).
  assert (HnR : 0 < INR (length signal)) by (apply lt_0_INR; exact Hn).
  eexists _, _. split; [apply perform_fft_ok; assumption|]. split.
  - rewrite nth_map_seq by exact Hh0. simpl INR. ring.
  - rewrite nth_firstn. destruct (Nat.ltb_spec 0 ((length signal + 1) / 2)); [|lia].
    rewrite (nth_indep _ 0 ((fun z => Cabs z / INR (length signal) * 2) C0))
      by (rewrite length_map, dft_length; unfold np.as_complex; rewrite length_map; lia).
    rewrite (map_nth (fun z => Cabs z / INR (length signal) * 2)).
    rewrite Cabs_real_part.
    + rewrite dft_real_bin_Re by exact Hn.
      rewrite (Rsum_map_ext _ (fun m => nth m signal 0)).
      * rewrite Rsum_nth_seq. unfold Rdiv. rewrite Rabs_mult.
        rewrite (Rabs_right (/ INR (length signal)))
          by (apply Rle_ge; left; apply Rinv_0_lt_compat; lra).
        ring.
      * intros m _. simpl INR.
        replace (-1 * (2 * PI * INR m * 0 / INR (length signal))) with 0 by (field; lra).
        rewrite cos_0. ring.
    + rewrite dft_real_bin_Im by exact Hn.
      rewrite (Rsum_map_ext _ (fun _ => 0)); [apply Rsum_map_zero|].
      intros m _. simpl INR.
      replace (-1 * (2 * PI * INR m * 0 / INR (length signal))) with 0 by (field; lra).
      rewrite sin_0. ring.
Qed.

Lemma perform_fft_dc_bin_witness :
  exists freq magnitude,
    FFTAnalyzer.perform_fft [3; 3; 3; 3] 1000 = Ok (freq, magnitude) /\
    nth 0 magnitude 0 = 6.
Proof.
  destruct (perform_fft_dc_bin [3; 3; 3; 3] 1000) as (freq & mag & E & _ & E0).
  - discriminate.
  - lia.
  - exists freq, mag. split; [exact E|]. rewrite E0. simpl.
    replace ((3 + (3 + (3 + (3 + 0)))) / (1 + 1 + 1 + 1)) with 3 by field.
    rewrite Rabs_right; lra.
Defined.

(** X10. Failures of the two transforms: an empty signal is refused by
    [np.fft] in both, in [perform_fft] before the sampling rate is looked
    at; a sampling rate of 0 makes [perform_fft] of a signal that is not
    empty raise [ZeroDivisionError]. *)
Theorem perform_fft_errors (signal : list R) (sampling_rate : Z) :
  FFTAnalyzer.perform_fft [] sampling_rate = Raise (ValueError invalid_fft_points) /\
  FFTAnalyzer.perform_ifft [] = Raise (ValueError invalid_fft_points) /\
  (signal <> [] -> FFTAnalyzer.perform_fft signal 0 = Raise ZeroDivisionError).
Proof.
  split; [reflexivity|]. split; [reflexivity|].
  intros Hne. unfold FFTAnalyzer.perform_fft.
  rewrite fft_ok by (destruct signal; [congruence|discriminate]). reflexivity.
Qed.

Lemma perform_fft_errors_witness :
  FFTAnalyzer.perform_fft [] 0 = Raise (ValueError invalid_fft_points) /\
  FFTAnalyzer.perform_fft ramp_8 0 = Raise ZeroDivisionError.
Proof.
  destruct (perform_fft_errors ramp_8 0) as (He & _ & H0).
  split; [exact He|apply H0; discriminate].
Defined.

(** The companion of [cos_sum_telescope] for sines. *)
Lemma sin_sum_telescope theta k :
  2 * sin (theta / 2) * Rsum (map (fun i => sin (INR i * theta)) (seq 0 k))
  = cos (theta / 2) - cos ((INR k - 1 / 2) * theta).
Proof.
  induction k as [|k IH].
  - simpl. replace ((0 - 1 / 2) * theta) with (- (theta / 2)) by lra.
    rewrite cos_neg. lra.
  - rewrite seq_S, map_app, Rsum_app. simpl map. rewrite Rmult_plus_distr_l, IH.
    unfold Rsum at 1. simpl fold_right. rewrite S_INR.
    replace ((INR k + 1 - 1 / 2) * theta) with (INR k * theta + theta / 2) by lra.
    replace ((INR k - 1 / 2) * theta) with (INR k * theta - theta / 2) by lra.
    rewrite cos_plus, cos_minus. lra.
Qed.

Lemma sin_sum_zero n d :
  (d < n)%nat ->
  Rsum (map (fun k => sin (INR k * (2 * PI * INR d / INR n))) (seq 0 n)) = 0.
Proof.
  intros Hn. destruct d as [|d].
  - rewrite (Rsum_map_ext _ (fun _ => 0)); [apply Rsum_map_zero|].
    intros k _. simpl INR. unfold Rdiv. rewrite !Rmult_0_r, Rmult_0_l, Rmult_0_r.
    apply sin_0.
  - assert (Hn0 : 0 < INR n) by (apply lt_0_INR; lia).
    assert (Hd0 : 0 < INR (S d)) by (apply lt_0_INR; lia).
    assert (Hdn : INR (S d) < INR n) by (apply lt_INR; lia).
    set (theta := 2 * PI * INR (S d) / INR n).
    pose proof (sin_sum_telescope theta n) as T.
    assert (Hhalf : 0 < theta / 2 < PI).
    { unfold theta. pose proof PI_RGT_0.
      replace (2 * PI * INR (S d) / INR n / 2) with (PI * (INR (S d) / INR n)) by (field; lra).
      assert (0 < INR (S d) / INR n < 1).
      { split; [apply Rdiv_lt_0_compat; lra|].
        apply (Rmult_lt_reg_r (INR n)); [lra|]. unfold Rdiv.
        rewrite Rmult_assoc, Rinv_l by lra. lra. }
      nra. }
    assert (Hsin : 0 < sin (theta / 2)) by (apply sin_gt_0; lra).
    replace ((INR n - 1 / 2) * theta) with (- (theta / 2) + 2 * INR (S d) * PI) in T
      by (unfold theta; field; lra).
    rewrite cos_period, cos_neg in T.
    assert (E : 2 * sin (theta / 2) * Rsum (map (fun i => sin (INR i * theta)) (seq 0 n)) = 0)
      by lra.
    apply Rmult_integral in E as [E|E]; [lra|exact E].
Qed.

Lemma cos_sum_all n d :
  (d < n)%nat ->
  Rsum (map (fun k => cos (INR k * (2 * PI * INR d / INR n))) (seq 0 n))
  = if (d =? 0)%nat then INR n else 0.
Proof.
  intros Hn. destruct d as [|d]; cbn [Nat.eqb].
  - rewrite (Rsum_map_ext _ (fun _ => 1)).
    + rewrite Rsum_map_const, length_seq. ring.
    + intros k _. simpl INR. unfold Rdiv. rewrite !Rmult_0_r, Rmult_0_l, Rmult_0_r.
      apply cos_0.
  - apply cos_sum_zero. lia.
Qed.

(** Orthogonality of a sampled sine of bin [a] with the sine and cosine
    of bin [k], when [a + k < n]. *)
Lemma sin_cos_orthogonal n a k :
  (a + k < n)%nat ->
  Rsum (map (fun m => sin (INR m * (2 * PI * INR a / INR n))
                      * cos (INR m * (2 * PI * INR k / INR n))) (seq 0 n)) = 0.
Proof.
  intros Hn. assert (Hn0 : 0 < INR n) by (apply lt_0_INR; lia).
  destruct (Nat.le_ge_cases k a) as [Hka|Hka].
  - rewrite (Rsum_map_ext _
      (fun m => 1 / 2 * sin (INR m * (2 * PI * INR (a + k) / INR n))
                + 1 / 2 * sin (INR m * (2 * PI * INR (a - k) / INR n)))).
    + rewrite Rsum_map_plus, !Rsum_map_scal, !sin_sum_zero by lia. ring.
    + intros m _. rewrite plus_INR, minus_INR by lia.
      replace (INR m * (2 * PI * (INR a + INR k) / INR n))
        with (INR m * (2 * PI * INR a / INR n) + INR m * (2 * PI * INR k / INR n))
        by (field; lra).
      replace (INR m * (2 * PI * (INR a - INR k) / INR n))
        with (INR m * (2 * PI * INR a / INR n) - INR m * (2 * PI * INR k / INR n))
        by (field; lra).
      rewrite sin_plus, sin_minus. lra.
  - rewrite (Rsum_map_ext _
      (fun m => 1 / 2 * sin (INR m * (2 * PI * INR (a + k) / INR n))
                + - (1 / 2) * sin (INR m * (2 * PI * INR (k - a) / INR n)))).
    + rewrite Rsum_map_plus, !Rsum_map_scal, !sin_sum_zero by lia. ring.
    + intros m _. rewrite plus_INR, minus_INR by lia.
      replace (INR m * (2 * PI * (INR a + INR k) / INR n))
        with (INR m * (2 * PI * INR a / INR n) + INR m * (2 * PI * INR k / INR n))
        by (field; lra).
      replace (INR m * (2 * PI * (INR k - INR a) / INR n))
        with (INR m * (2 * PI * INR k / INR n) - INR m * (2 * PI * INR a / INR n))
        by (field; lra).
      rewrite sin_plus, sin_minus. lra.
Qed.

Lemma sin_sin_orthogonal n a k :
  (0 < a)%nat -> (a + k < n)%nat ->
  Rsum (map (fun m => sin (INR m * (2 * PI * INR a / INR n))
                      * sin (INR m * (2 * PI * INR k / INR n))) (seq 0 n))
  = if (a =? k)%nat then INR n / 2 else 0.
Proof.
  intros Ha Hn. assert (Hn0 : 0 < INR n) by (apply lt_0_INR; lia).
  destruct (Nat.le_ge_cases k a) as [Hka|Hka].
  - rewrite (Rsum_map_ext _
      (fun m => 1 / 2 * cos (INR m * (2 * PI * INR (a - k) / INR n))
                + - (1 / 2) * cos (INR m * (2 * PI * INR (a + k) / INR n)))).
    + rewrite Rsum_map_plus, !Rsum_map_scal, !cos_sum_all by lia.
      destruct (Nat.eqb_spec a k) as [->|Hne].
      * rewrite Nat.sub_diag. cbn [Nat.eqb].
        destruct (Nat.eqb_spec (k + k) 0); [lia|]. field.
      * destruct (Nat.eqb_spec (a - k) 0); [lia|].
        destruct (Nat.eqb_spec (a + k) 0); [lia|]. ring.
    + intros m _. rewrite plus_INR, minus_INR by lia.
      replace (INR m * (2 * PI * (INR a + INR k) / INR n))
        with (INR m * (2 * PI * INR a / INR n) + INR m * (2 * PI * INR k / INR n))
        by (field; lra).
      replace (INR m * (2 * PI * (INR a - INR k) / INR n))
        with (INR m * (2 * PI * INR a / INR n) - INR m * (2 * PI * INR k / INR n))
        by (field; lra).
      rewrite cos_plus, cos_minus. lra.
  - rewrite (Rsum_map_ext _
      (fun m => 1 / 2 * cos (INR m * (2 * PI * INR (k - a) / INR n))
                + - (1 / 2) * cos (INR m * (2 * PI * INR (a + k) / INR n)))).
    + rewrite Rsum_map_plus, !Rsum_map_scal, !cos_sum_all by lia.
      destruct (Nat.eqb_spec a k) as [->|Hne].
      * rewrite Nat.sub_diag. cbn [Nat.eqb].
        destruct (Nat.eqb_spec (k + k) 0); [lia|]. field.
      * destruct (Nat.eqb_spec (k - a) 0); [lia|].
        destruct (Nat.eqb_spec (a + k) 0); [lia|]. ring.
    + intros m _. rewrite plus_INR, minus_INR by lia.
      replace (INR m * (2 * PI * (INR a + INR k) / INR n))
        with (INR m * (2 * PI * INR a / INR n) + INR m * (2 * PI * INR k / INR n))
        by (field; lra).
      replace (INR m * (2 * PI * (INR k - INR a) / INR n))
        with (INR m * (2 * PI * INR k / INR n) - INR m * (2 * PI * INR a / INR n))
        by (field; lra).
      rewrite cos_plus, cos_minus. lra.
Qed.

(** The transform of a sum of three sampled sines, at a bin [k] below
    [n - a] for each of their bins [a]. *)
Lemma dft_three_sines (x : list R) (A1 A2 A3 : R) (a1 a2 a3 k : nat) :
  let n := length x in
  let w a := 2 * PI * INR a / INR n in
  (forall m, (m < n)%nat ->
     nth m x 0 = A1 * sin (INR m * w a1) + A2 * sin (INR m * w a2)
                 + A3 * sin (INR m * w a3)) ->
  (0 < a1)%nat -> (0 < a2)%nat -> (0 < a3)%nat ->
  (a1 + k < n)%nat -> (a2 + k < n)%nat -> (a3 + k < n)%nat ->
  Re (nth k (np.dft (-1) (np.as_complex x)) C0) = 0 /\
  Im (nth k (np.dft (-1) (np.as_complex x)) C0)
  = - (INR n / 2) * ((if (a1 =? k)%nat then A1 else 0)
                     + (if (a2 =? k)%nat then A2 else 0)
                     + (if (a3 =? k)%nat then A3 else 0)).
Proof.
  intros n w Hx H1 H2 H3 K1 K2 K3.
  assert (Hn0 : 0 < INR n) by (apply lt_0_INR; lia).
  split.
  - rewrite dft_real_bin_Re by (fold n; lia). fold n.
    rewrite (Rsum_map_ext _
      (fun m => A1 * (sin (INR m * w a1) * cos (INR m * w k))
                + A2 * (sin (INR m * w a2) * cos (INR m * w k))
                + A3 * (sin (INR m * w a3) * cos (INR m * w k)))).
    + rewrite !Rsum_map_plus, !Rsum_map_scal. unfold w.
      rewrite !sin_cos_orthogonal by assumption. ring.
    + intros m Hm. apply in_seq in Hm. rewrite Hx by lia.
      replace (-1 * (2 * PI * INR m * INR k / INR n)) with (- (INR m * w k))
        by (unfold w; field; lra).
      rewrite cos_neg. ring.
  - rewrite dft_real_bin_Im by (fold n; lia). fold n.
    rewrite (Rsum_map_ext _
      (fun m => - A1 * (sin (INR m * w a1) * sin (INR m * w k))
                + - A2 * (sin (INR m * w a2) * sin (INR m * w k))
                + - A3 * (sin (INR m * w a3) * sin (INR m * w k)))).
    + rewrite !Rsum_map_plus, !Rsum_map_scal. unfold w.
      rewrite !sin_sin_orthogonal by assumption.
      destruct (a1 =? k)%nat, (a2 =? k)%nat, (a3 =? k)%nat; field.
    + intros m Hm. apply in_seq in Hm. rewrite Hx by lia.
      replace (-1 * (2 * PI * INR m * INR k / INR n)) with (- (INR m * w k))
        by (unfold w; field; lra).
      rewrite sin_neg. ring.
Qed.

(** X11. The test signal and its spectrum, in exact arithmetic.  For a
    positive frequency [freq], a positive duration, a sampling rate above
    [6 * freq] and fewer than 2^31 samples, [generate_signal] returns
    [sampling_rate * duration] samples on the time grid
    [i / sampling_rate], and the discrete Fourier sums that [perform_fft]
    returns for that signal have magnitude 1, 1/2 and 1/4 at the bins of
    [freq], [2 * freq] and [3 * freq] and magnitude 0 at every other bin;
    bin [k] stands for the frequency [k / duration].  In float64 the
    same values come out up to rounding. *)
Theorem generated_signal_spectrum (freq duration sampling_rate : Z) :
  (0 < freq)%Z -> (0 < duration)%Z -> (6 * freq < sampling_rate)%Z ->
  (sampling_rate * duration < 2147483648)%Z ->
  let a := Z.to_nat (freq * duration) in
  exists t signal f magnitude,
    FFTAnalyzer.generate_signal freq duration sampling_rate
      = Ok (t, signal, [freq; 2 * freq; 3 * freq]%Z) /\
    len t = (sampling_rate * duration)%Z /\
    len signal = (sampling_rate * duration)%Z /\
    (forall i, (i < length t)%nat -> nth i t 0 = INR i / IZR sampling_rate) /\
    FFTAnalyzer.perform_fft signal sampling_rate = Ok (f, magnitude) /\
    length f = length magnitude /\ (3 * a < length magnitude)%nat /\
    forall k, (k < length magnitude)%nat ->
      nth k f 0 = INR k / IZR duration /\
      nth k magnitude 0
      = if (k =? a)%nat then 1
        else if (k =? 2 * a)%nat then 1 / 2
        else if (k =? 3 * a)%nat then 1 / 4
        else 0.
Proof.
  intros Hf HD Hsr _ a.
  set (n := Z.to_nat (sampling_rate * duration)).
  assert (HN : (0 < sampling_rate * duration)%Z) by nia.
  assert (Hn : Z.of_nat n = (sampling_rate * duration)%Z) by (unfold n; lia).
  assert (Ha : Z.of_nat a = (freq * duration)%Z) by (unfold a; nia).
  assert (H6 : (6 * a < n)%nat) by nia.
  assert (HfR : 0 < IZR freq) by (apply IZR_lt; lia).
  assert (HDR : 0 < IZR duration) by (apply IZR_lt; lia).
  assert (HsR : 0 < IZR sampling_rate) by (apply IZR_lt; lia).
  assert (HnR : INR n = IZR sampling_rate * IZR duration).
  { rewrite INR_IZR_INZ, Hn. apply mult_IZR. }
  assert (HaR : INR a = IZR freq * IZR duration).
  { rewrite INR_IZR_INZ, Ha. apply mult_IZR. }
  set (t := map (fun i => INR i * ((IZR duration - 0) / IZR (sampling_rate * duration)) + 0)
                (seq 0 n)).
  set (g := fun ti => sin (2 * PI * IZR freq * ti)
                      + 0.5 * sin (2 * PI * 2 * IZR freq * ti)
                      + 0.25 * sin (2 * PI * 3 * IZR freq * ti)).
  assert (Egen : FFTAnalyzer.generate_signal freq duration sampling_rate
                 = Ok (t, map g t, [freq; 2 * freq; 3 * freq]%Z)).
  { unfold FFTAnalyzer.generate_signal, npx.linspace_open.
    destruct (Z.ltb_spec (sampling_rate * duration) 0); [lia|]. reflexivity. }
  assert (Lt : length t = n) by (unfold t; rewrite length_map, length_seq; reflexivity).
  assert (Lx : length (map g t) = n) by (rewrite length_map; exact Lt).
  assert (Hne : map g t <> []).
  { intros E. rewrite E in Lx. simpl in Lx. lia. }
  assert (Hx : forall m, (m < length (map g t))%nat ->
            nth m (map g t) 0
            = 1 * sin (INR m * (2 * PI * INR a / INR (length (map g t))))
              + 1 / 2 * sin (INR m * (2 * PI * INR (2 * a) / INR (length (map g t))))
              + 1 / 4 * sin (INR m * (2 * PI * INR (3 * a) / INR (length (map g t))))).
  { intros m Hm. rewrite Lx in *. unfold t. rewrite map_map, nth_map_seq by exact Hm.
    unfold g. rewrite !mult_INR, HaR, HnR, mult_IZR. simpl INR.
    replace (2 * PI * IZR freq *
             (INR m * ((IZR duration - 0) / (IZR sampling_rate * IZR duration)) + 0))
      with (INR m * (2 * PI * (IZR freq * IZR duration)
                     / (IZR sampling_rate * IZR duration))) by (field; lra).
    replace (2 * PI * 2 * IZR freq *
             (INR m * ((IZR duration - 0) / (IZR sampling_rate * IZR duration)) + 0))
      with (INR m * (2 * PI * ((1 + 1) * (IZR freq * IZR duration))
                     / (IZR sampling_rate * IZR duration))) by (field; lra).
    replace (2 * PI * 3 * IZR freq *
             (INR m * ((IZR duration - 0) / (IZR sampling_rate * IZR duration)) + 0))
      with (INR m * (2 * PI * ((1 + 1 + 1) * (IZR freq * IZR duration))
                     / (IZR sampling_rate * IZR duration))) by (field; lra).
    lra. }
  pose proof (perform_fft_ok (map g t) sampling_rate Hne ltac:(lia)) as Efft.
  rewrite Lx in Efft.
  assert (Hhalf : (3 * a < (n + 1) / 2)%nat).
  { pose proof (Nat.div_mod_eq (n + 1) 2).
    pose proof (Nat.mod_upper_bound (n + 1) 2). lia. }
  assert (Hhn : ((n + 1) / 2 <= n)%nat).
  { pose proof (Nat.div_mod_eq (n + 1) 2).
    pose proof (Nat.mod_upper_bound (n + 1) 2). lia. }
  assert (Lmag : length (firstn ((n + 1) / 2)
                   (map (fun z => Cabs z / INR n * 2) (np.dft (-1) (np.as_complex (map g t)))))
                 = ((n + 1) / 2)%nat).
  { rewrite length_firstn, length_map, dft_length. unfold np.as_complex.
    rewrite length_map, Lx. lia. }
  eexists _, _, _, _.
  split; [exact Egen|]. split; [unfold len; lia|]. split; [unfold len; lia|].
  split.
  { intros i Hi. rewrite Lt in Hi. unfold t. rewrite nth_map_seq by exact Hi.
    rewrite mult_IZR. field. lra. }
  split; [exact Efft|].
  split; [rewrite Lmag, length_map, length_seq; reflexivity|].
  split; [rewrite Lmag; exact Hhalf|].
  intros k Hk. rewrite Lmag in Hk.
  assert (H2k : (2 * k < n)%nat).
  { pose proof (Nat.div_mod_eq (n + 1) 2).
    pose proof (Nat.mod_upper_bound (n + 1) 2). lia. }
  split.
  - rewrite nth_map_seq by exact Hk. rewrite HnR. field. lra.
  - rewrite nth_firstn. destruct (Nat.ltb_spec k ((n + 1) / 2)); [|lia].
    rewrite (nth_indep _ 0 ((fun z => Cabs z / INR n * 2) C0))
      by (rewrite length_map, dft_length; unfold np.as_complex; rewrite length_map; lia).
    rewrite (map_nth (fun z => Cabs z / INR n * 2)).
    destruct (dft_three_sines (map g t) 1 (1 / 2) (1 / 4) a (2 * a) (3 * a) k Hx)
      as [ERe EIm]; try (rewrite ?Lx; lia).
    rewrite Lx in EIm.
    rewrite Cabs_imaginary_part by exact ERe. rewrite EIm.
    assert (HnR0 : 0 < INR n) by (rewrite HnR; apply Rmult_lt_0_compat; lra).
    destruct (Nat.eqb_spec a k) as [E1|E1];
      destruct (Nat.eqb_spec (2 * a) k) as [E2|E2];
      destruct (Nat.eqb_spec (3 * a) k) as [E3|E3]; try lia;
      destruct (Nat.eqb_spec k a); destruct (Nat.eqb_spec k (2 * a));
      destruct (Nat.eqb_spec k (3 * a)); try lia;
      match goal with
      | |- Rabs ?v / _ * 2 = _ =>
          rewrite (Rabs_left1 v) by nra; field; lra
      end.
Qed.

Lemma generated_signal_spectrum_witness :
  exists t signal f magnitude,
    FFTAnalyzer.generate_signal 5 1 1000 = Ok (t, signal, [5; 10; 15]%Z) /\
    len t = 1000%Z /\ len signal = 1000%Z /\
    FFTAnalyzer.perform_fft signal 1000 = Ok (f, magnitude) /\
    nth 5 magnitude 0 = 1 /\ nth 10 magnitude 0 = 1 / 2 /\
    nth 15 magnitude 0 = 1 / 4 /\ nth 7 magnitude 0 = 0 /\
    nth 10 f 0 = 10.
Proof.
  destruct (generated_signal_spectrum 5 1 1000)
    as (t & signal & f & mag & Eg & Lt & Lx & _ & Ef & _ & L15 & Hk);
    try lia.
  simpl Z.to_nat in L15, Hk.
  exists t, signal, f, mag.
  split; [exact Eg|]. split; [exact Lt|]. split; [exact Lx|]. split; [exact Ef|].
  change (Pos.to_nat 5) with 5%nat in *.
  split; [apply (Hk 5%nat); lia|]. split; [apply (Hk 10%nat); lia|].
  split; [apply (Hk 15%nat); lia|]. split; [apply (Hk 7%nat); lia|].
  destruct (Hk 10%nat) as [E _]; [lia|]. rewrite E. simpl. lra.
Defined.

(* ----------------------------------------------------------------- *)
(** ** AudioLoader *)









(** X13. What [save_audio] hands to [sf.write] for a supported path: the
    path and the rate as given, and as many samples as it got.  A sample
    that is not NaN is written within [-1, 1]: unchanged inside that
    range, 1 above it (also for [+inf]), -1 below it (also for [-inf]).
    A NaN sample is written as NaN: the clipping does not remove it. *)
Theorem save_audio_clips (file_path : string) (audio_data : list float) (sample_rate : Z) :
  AudioLoader.format_supported file_path = true ->
  exists call,
    AudioLoader.save_audio file_path audio_data sample_rate = AudioLoader.Returned call /\
    AudioLoader.written_path call = file_path /\
    AudioLoader.written_rate call = sample_rate /\
    length (AudioLoader.written_data call) = length audio_data /\
    forall i, (i < length audio_data)%nat ->
      let x := nth i audio_data NaN in
      let y := nth i (AudioLoader.written_data call) NaN in
      (x = NaN -> y = NaN) /\
      (x = PosInf -> y = Finite 1) /\
      (x = NegInf -> y = Finite (-1)) /\
      (forall r, x = Finite r ->
         exists v, y = Finite v /\ -1 <= v <= 1 /\
           (-1 <= r <= 1 -> v = r) /\ (1 < r -> v = 1) /\ (r < -1 -> v = -1)).
Proof.
  intros Hs. unfold AudioLoader.save_audio. rewrite Hs. cbn [negb].
  eexists. split; [reflexivity|]. cbn [AudioLoader.written_path
    AudioLoader.written_rate AudioLoader.written_data].
  split; [reflexivity|]. split; [reflexivity|].
  unfold npx.clip. split; [apply length_map|].
  intros i Hi. cbv zeta.
  match goal with
  | |- context [map ?f audio_data] =>
      pose proof (map_nth f audio_data NaN i) as Hm
  end.
  cbv beta iota in Hm. rewrite Hm. clear Hm.
  destruct (nth i audio_data NaN) as [r| | |].
  - split; [discriminate|]. split; [discriminate|]. split; [discriminate|].
    intros r' [= <-]. eexists. split; [reflexivity|].
    unfold Rmin, Rmax.
    destruct (Rle_dec r (-1)); destruct (Rle_dec _ 1); repeat split; intros; lra.
  - split; [discriminate|]. split; [reflexivity|]. split; discriminate.
  - split; [discriminate|]. split; [discriminate|].
    split; [|discriminate]. intros _. f_equal.
    unfold Rmin. destruct (Rle_dec (-1) 1); lra.
  - split; [reflexivity|]. split; [discriminate|]. split; discriminate.
Qed.

Lemma save_audio_clips_witness :
  exists call,
    AudioLoader.save_audio "reconstructed_audio.wav"
      [Finite (3 / 2); NaN; NegInf] 44100
    = AudioLoader.Returned call /\
    AudioLoader.written_data call = [Finite 1; NaN; Finite (-1)].
Proof.
  destruct (save_audio_clips "reconstructed_audio.wav"
              [Finite (3 / 2); NaN; NegInf] 44100)
    as (call & E & _ & _ & L & Hi).
  - reflexivity.
  - exists call. split; [exact E|].
    destruct (AudioLoader.written_data call) as [|y0 [|y1 [|y2 [|y3 l]]]];
      simpl in L; try discriminate.
    destruct (Hi 0%nat) as (_ & _ & _ & H0); [simpl; lia|].
    destruct (Hi 1%nat) as (H1 & _); [simpl; lia|].
    destruct (Hi 2%nat) as (_ & _ & H2 & _); [simpl; lia|].
    simpl in H0, H1, H2.
    destruct (H0 (3 / 2) eq_refl) as (v & -> & _ & _ & Hv & _).
    rewrite (Hv ltac:(lra)), (H1 eq_refl), (H2 eq_refl). reflexivity.
Defined.

(** X15. [generate_signal] with a sample count
    [sampling_rate * duration] that is negative raises the [ValueError]
    of [np.linspace]; with a count of 0 it returns empty arrays, which
    [perform_fft] then refuses. *)
Theorem generate_signal_degenerate (freq duration sampling_rate : Z) :
  ((sampling_rate * duration < 0)%Z ->
   FFTAnalyzer.generate_signal freq duration sampling_rate
   = Raise (ValueError negative_dimensions)) /\
  ((sampling_rate * duration = 0)%Z ->
   FFTAnalyzer.generate_signal freq duration sampling_rate
   = Ok ([], [], [freq; 2 * freq; 3 * freq]%Z) /\
   FFTAnalyzer.perform_fft [] sampling_rate = Raise (ValueError invalid_fft_points)).
Proof.
  unfold FFTAnalyzer.generate_signal, npx.linspace_open.
  split.
  - intros H. destruct (Z.ltb_spec (sampling_rate * duration) 0); [reflexivity|lia].
  - intros ->. split; reflexivity.
Qed.

Lemma generate_signal_degenerate_witness :
  FFTAnalyzer.generate_signal 5 (-1) 1000 = Raise (ValueError negative_dimensions) /\
  FFTAnalyzer.generate_signal 5 0 1000 = Ok ([], [], [5; 10; 15]%Z).
Proof.
  split.
  - apply (proj1 (generate_signal_degenerate 5 (-1) 1000)). reflexivity.
  - apply (proj2 (generate_signal_degenerate 5 0 1000)). reflexivity.
Defined.

(* ----------------------------------------------------------------- *)
(** ** Framing *)

(** X16. The frames slide: for a signal of at least [W + H] samples,
    the transform of the signal without its first [hop_length] samples
    is the transform of the signal without its first column. *)
Theorem stft_drop_first_hop (W H : Z) (t : string) (p : self) (x : list R) :
  __init__ W H t = Ok p -> (0 < W)%Z -> (0 < H)%Z -> (W + H <= len x)%Z ->
  exists m m',
    stft p x = Ok m /\ stft p (skipn (Z.to_nat H) x) = Ok m' /\
    np.shape0 m' = np.shape0 m /\ np.columns m' = tl (np.columns m).
Proof.
  intros Hinit HW HH HL.
  destruct (init_ok_inv _ _ _ _ Hinit) as (EW & EH & _ & _ & Hwl & _).
  set (x' := skipn (Z.to_nat H) x).
  assert (Lx' : len x' = (len x - H)%Z).
  { unfold x', len in *. rewrite length_skipn. lia. }
  destruct (stft_columns p) with (x := x) as (m & Em & Hs & Hc & _ & Hcols);
    try (rewrite ?EW, ?EH; assumption); try (rewrite EW; lia).
  destruct (stft_columns p) with (x := x') as (m' & Em' & Hs' & Hc' & _ & Hcols');
    try (rewrite ?EW, ?EH; assumption); try (rewrite EW; lia).
  rewrite EW, EH in *.
  assert (Hfc : frame_count (len x') W H = (frame_count (len x) W H - 1)%Z).
  { unfold frame_count. rewrite Lx'.
    replace (len x - H - W)%Z with (len x - W + (-1) * H)%Z by ring.
    rewrite Z.div_add by lia. ring. }
  exists m, m'. split; [exact Em|]. split; [exact Em'|]. split; [congruence|].
  assert (Lc : Z.of_nat (length (np.columns m)) = frame_count (len x) W H) by exact Hc.
  assert (Lc' : Z.of_nat (length (np.columns m')) = frame_count (len x') W H) by exact Hc'.
  apply nth_error_ext. intros i.
  replace (nth_error (tl (np.columns m)) i) with (nth_error (np.columns m) (S i))
    by (destruct (np.columns m); [destruct i|]; reflexivity).
  destruct (Z.lt_ge_cases (Z.of_nat i) (frame_count (len x') W H)) as [Hi|Hi].
  - rewrite Hcols' by exact Hi. rewrite Hcols by lia. do 3 f_equal.
    unfold windowed_frame. apply map_ext. intros j. f_equal.
    unfold x'. rewrite nth_skipn. f_equal. nia.
  - rewrite (proj2 (nth_error_None (np.columns m') i)) by lia.
    rewrite (proj2 (nth_error_None (np.columns m) (S i))) by lia. reflexivity.
Qed.

Lemma stft_drop_first_hop_witness :
  exists m m',
    stft hann_4_2 ramp_8 = Ok m /\ stft hann_4_2 [3; 4; 5; 6; 7; 8] = Ok m' /\
    np.shape0 m' = np.shape0 m /\ np.columns m' = tl (np.columns m).
Proof.
  apply (stft_drop_first_hop 4 2 "hann" hann_4_2 ramp_8).
  - reflexivity.
  - lia.
  - lia.
  - vm_compute. discriminate.
Defined.
